(** * card-game-go: the poker hand evaluator, winner resolution and dealing

    A shallow embedding of the Go packages [card], [deck], [cardgame],
    [pokerhand] and [holdem], followed by the properties of the hand
    classifier, the comparator, the combination generator, the best-hand
    search, winner resolution and [Deal].

    Conventions of the embedding:
    - a Go [int] is a [Z]; the two places where the code adds or subtracts
      ints go through [goint.add] and [goint.sub], which wrap at 64 bits;
    - a slice is a [list]; an index expression that Go would reject at run
      time with "index out of range" yields [Panic], and so does a [make]
      that the runtime rejects with "makeslice: len out of range";
    - a Go [error] result is [Err msg];
    - [map[int]int] is a [gmap Z Z]. *)

From Stdlib Require Import ZArith List Lia Permutation Sorted.
From stdpp Require Import base option list sorting gmap fin_maps strings pretty.

Open Scope Z_scope.

(** ** Go's 64-bit [int] *)
Module goint.

Definition wrap (z : Z) : Z := (z + 2 ^ 63) mod 2 ^ 64 - 2 ^ 63.
Definition add (a b : Z) : Z := wrap (a + b).
Definition sub (a b : Z) : Z := wrap (a - b).
Definition inRange (z : Z) : Prop := - 2 ^ 63 <= z < 2 ^ 63.

End goint.

(** ** Results of fallible code *)
Inductive result (A : Type) : Type :=
| Ok (a : A)
| Err (msg : string)
| Panic.
Arguments Ok {A} a.
Arguments Err {A} msg.
Arguments Panic {A}.

#[global] Instance result_ret : MRet result := fun A a => Ok a.
#[global] Instance result_bind : MBind result := fun A B f m =>
  match m with
  | Ok a => f a
  | Err msg => Err msg
  | Panic => Panic
  end.

(** [l[i]] with Go's bounds check. *)
Definition index {A : Type} (l : list A) (i : nat) : result A :=
  match l !! i with
  | Some x => Ok x
  | None => Panic
  end.

(** ** [make] for slices

    [make([]T, n)] goes through the runtime's [makeslice]: it panics with
    "makeslice: len out of range" when [n] is negative or when the [n]
    elements take more than [maxAlloc] bytes, and otherwise hands out [n]
    zero values.  [maxAlloc] is the size of the heap's address space, 2^48
    bytes on the 64-bit platforms.  A request below that limit which the
    machine cannot serve ends the program with the runtime's fatal error
    "out of memory"; the embedding, like the source, has no account of the
    machine's memory and takes such a request as served. *)
Definition maxAlloc : Z := 2 ^ 48.

Definition makeslice {A : Type} (size : Z) (zero : A) (len : Z) : result (list A) :=
  if (len <? 0) || (maxAlloc <? size * len) then Panic
  else Ok (replicate (Z.to_nat len) zero).

(** ** The standard library's sort on short slices

    [sort.Slice] and [sort.Sort] run [insertionSort] on every slice of at
    most 12 elements: each element in turn moves left while [less] holds
    between it and its left neighbour.  [sink] is that inner loop; the part
    of the slice left of the moving element is held nearest element first.
    The hands sorted here have five cards; on a slice of more than 12
    elements the library may leave elements that compare equal in another
    order. *)
Section insertionSort.
Context {A : Type} (less : A → A → bool).

Fixpoint sink (x : A) (left : list A) : list A :=
  match left with
  | [] => [x]
  | y :: left' => if less x y then y :: sink x left' else x :: left
  end.

Definition insertionSort (data : list A) : list A :=
  rev (fold_left (fun left x => sink x left) data []).
End insertionSort.

(** ** Package card *)
Module card.

Definition Spades : Z := 0.
Definition Hearts : Z := 1.
Definition Diamonds : Z := 2.
Definition Clubs : Z := 3.

Record Card : Type := mkCard { Suit : Z; Value : Z }.

(** [==] on cards compares both fields. *)
#[global] Instance Card_eq_dec : EqDecision Card.
Proof. solve_decision. Defined.

Definition IsValidCard (c : Card) : bool :=
  (Spades <=? Suit c) && (Suit c <=? Clubs) && (1 <=? Value c) && (Value c <=? 13).

(** [c.String()]: the validity check keeps both index expressions in
    range. *)
Definition Card_String (c : Card) : string :=
  let values := ["A"; "2"; "3"; "4"; "5"; "6"; "7"; "8"; "9"; "10"; "J"; "Q"; "K"]%string in
  let suits := ["♠"; "♥"; "♦"; "♣"]%string in
  if negb (IsValidCard c) then "Invalid Card"
  else default "" (values !! Z.to_nat (Value c - 1)) +:+
       default "" (suits !! Z.to_nat (Suit c)).

End card.
Export card.

(** ** Package deck *)
Module deck.

Abbreviation Deck := (list Card).

(** [Draw] returns the card, the error ([None] for [nil]) and the deck it
    leaves behind; [Card{}] is the card whose two fields are zero. *)
Definition Draw (d : Deck) : Card * option string * Deck :=
  match d with
  | [] => (mkCard 0 0, Some "no cards left in the deck", d)
  | card :: rest => (card, None, rest)
  end.

(** [NewDeck]: the two counting loops, appending one card per round. *)
Definition NewDeck : Deck :=
  fold_left
    (fun deck suit =>
       fold_left (fun deck value => deck ++ [mkCard suit value]) (seqZ 1 13) deck)
    (seqZ Spades (Clubs - Spades + 1)) [].

(** The closure handed to the shuffle: [d[i], d[j] = d[j], d[i]].  The
    shuffle calls it with indices below [len(d)] only. *)
Definition swap (d : Deck) (i j : nat) : Deck :=
  match d !! i, d !! j with
  | Some x, Some y => <[j := x]> (<[i := y]> d)
  | _, _ => d
  end.

(** [Shuffle].  The library's shuffle runs
    [for i := n - 1; i > 0; i-- { j := r.Intn(i + 1); swap(i, j) }];
    [rnd i] stands for the number the generator gives at step [i], brought
    into the range of [Intn (i + 1)]. *)
Fixpoint shuffleLoop (rnd : nat → nat) (i : nat) (d : Deck) : Deck :=
  match i with
  | O => d
  | S i' => shuffleLoop rnd i' (swap d i (rnd i `mod` (i + 1))%nat)
  end.

Definition Shuffle (rnd : nat → nat) (d : Deck) : Deck :=
  shuffleLoop rnd (length d - 1) d.

(** [AddCardToDeck] returns the error ([None] for [nil]) and the deck it
    leaves behind. *)
Definition AddCardToDeck (d : Deck) (c : Card) : option string * Deck :=
  if negb (IsValidCard c) then (Some "invalid card", d)
  else (None, d ++ [c]).

(** The loop [for i, card := range *d] with [if card == c]: the first
    index at which [c] is found, counting from [i]. *)
Fixpoint findCard (c : Card) (d : Deck) (i : nat) : option nat :=
  match d with
  | [] => None
  | card :: rest => if decide (card = c) then Some i else findCard c rest (S i)
  end.

(** [RemoveCard] returns its boolean and the deck it leaves behind: the
    part of the deck before position [i] with the part after it appended. *)
Definition RemoveCard (d : Deck) (c : Card) : bool * Deck :=
  match findCard c d 0 with
  | Some i => (true, take i d ++ drop (i + 1) d)
  | None => (false, d)
  end.

End deck.

(** ** Package cardgame *)
Module cardgame.

Abbreviation Hand := (list Card).

Record Game : Type := mkGame {
  Deck : deck.Deck;
  Hands : list Hand;
  ReferenceDeck : deck.Deck
}.

(** [Deal] returns the error ([None] for [nil]) and the game it leaves
    behind.  The index check guards [g.Hands[handIndex]], so the lookup
    below cannot miss. *)
Definition Deal (g : Game) (handIndex : Z) : option string * Game :=
  if (handIndex <? 0) || (handIndex >=? Z.of_nat (length (Hands g))) then
    (Some "no cards left in the deck", g)
  else
    let '(card, err, deck') := deck.Draw (Deck g) in
    let g := mkGame deck' (Hands g) (ReferenceDeck g) in
    match err with
    | Some msg => (Some msg, g)
    | None =>
        let i := Z.to_nat handIndex in
        (None,
         mkGame (Deck g)
           (<[i := default [] (Hands g !! i) ++ [card]]> (Hands g))
           (ReferenceDeck g))
    end.

(** A [Hand] is a slice: a pointer, a length and a capacity of 8 bytes
    each. *)
Definition sizeofHand : Z := 24.

(** [NewGame]: the reference deck is a copy taken before the shuffle;
    [make([]Hand, numHands)] panics on a length that is negative or too
    large. *)
Definition NewGame (numHands : Z) (rnd : nat → nat) : result Game :=
  let newDeck := deck.NewDeck in
  let referenceDeck := newDeck in
  hands ← makeslice sizeofHand ([] : Hand) numHands;
  Ok (mkGame (deck.Shuffle rnd newDeck) hands referenceDeck).

(** The loop of [VerifyHands] over the cards of one hand: whether every
    card was found, and the copy of the deck that is left.  A card that is
    found is taken out of the copy; the first card that is not ends the
    loop. *)
Fixpoint verifyHand (hand : Hand) (deckCopy : deck.Deck) : bool * deck.Deck :=
  match hand with
  | [] => (true, deckCopy)
  | card :: rest =>
      match deck.findCard card deckCopy 0 with
      | Some j => verifyHand rest (take j deckCopy ++ drop (j + 1) deckCopy)
      | None => (false, deckCopy)
      end
  end.

(** The loop [for i, hand := range g.Hands] of [VerifyHands]. *)
Fixpoint verifyLoop (hands : list Hand) (i : nat) (deckCopy : deck.Deck)
    (invalidHandIndices : list Z) : list Z :=
  match hands with
  | [] => invalidHandIndices
  | hand :: rest =>
      let '(found, deckCopy') := verifyHand hand deckCopy in
      verifyLoop rest (S i) deckCopy'
        (if found then invalidHandIndices
         else invalidHandIndices ++ [Z.of_nat i])
  end.

Definition VerifyHands (g : Game) : bool * list Z :=
  let invalidHandIndices := verifyLoop (Hands g) 0 (ReferenceDeck g) [] in
  (bool_decide (length invalidHandIndices = 0%nat), invalidHandIndices).

End cardgame.

(** ** Package pokerhand *)
Module pokerhand.

Inductive HandRank : Type :=
| HighCard | Pair | TwoPair | ThreeOfAKind | Straight
| Flush | FullHouse | FourOfAKind | StraightFlush | RoyalFlush.

(** [int(rank)]: the value [iota] gives each constant. *)
Definition rankInt (r : HandRank) : Z :=
  match r with
  | HighCard => 0 | Pair => 1 | TwoPair => 2 | ThreeOfAKind => 3 | Straight => 4
  | Flush => 5 | FullHouse => 6 | FourOfAKind => 7 | StraightFlush => 8
  | RoyalFlush => 9
  end.

#[global] Instance HandRank_eq_dec : EqDecision HandRank.
Proof. solve_decision. Defined.

Record HandResult : Type := mkHandResult {
  Rank : HandRank;
  Name : string;
  Cards : list Card;
  HighCards : list Z
}.

Definition getComparisonValue (card : Card) : Z :=
  if Value card =? 1 then 14 else Value card.

(** The [less] closures handed to the sort: [sort.Slice] in [evaluateHand],
    and [sort.Reverse (sort.IntSlice values)] in [checkStraight]. *)
Definition lessCard (a b : Card) : bool :=
  getComparisonValue a >? getComparisonValue b.
Definition lessIntReverse (a b : Z) : bool := b <? a.

Fixpoint allSuit (suit : Z) (rest : list Card) : bool :=
  match rest with
  | [] => true
  | card :: rest' => if negb (Suit card =? suit) then false else allSuit suit rest'
  end.

Definition checkFlush (hand : list Card) : result bool :=
  match hand with
  | [] => Panic
  | c0 :: rest => Ok (allSuit (Suit c0) rest)
  end.

(** The loop [for i := 1; i < len(values); i++] of [checkStraight]. *)
Fixpoint regularStraight (values : list Z) : bool :=
  match values with
  | prev :: (cur :: _) as rest =>
      if negb (prev =? goint.add cur 1) then false else regularStraight rest
  | _ => true
  end.

(** [a && b] where [b] is only evaluated when [a] holds. *)
Definition andAlso (a : result bool) (b : result bool) : result bool :=
  x ← a; if (x : bool) then b else Ok false.

Definition valueIs (values : list Z) (i : nat) (v : Z) : result bool :=
  x ← index values i; Ok (x =? v).

Definition checkStraight (hand : list Card) : result (bool * Z) :=
  let values := insertionSort lessIntReverse (map getComparisonValue hand) in
  if regularStraight values then
    v0 ← index values 0; Ok (true, v0)
  else
    aceLow ← andAlso (andAlso (andAlso (andAlso (valueIs values 0 14)
                (valueIs values 1 5)) (valueIs values 2 4))
                (valueIs values 3 3)) (valueIs values 4 2);
    if (aceLow : bool) then Ok (true, 5) else Ok (false, 0).

Definition countValues (hand : list Card) : gmap Z Z :=
  fold_left
    (fun counts card =>
       let v := getComparisonValue card in
       <[v := goint.add (default 0 (counts !! v)) 1]> counts)
    hand ∅.

(** [for _, count := range counts]: the counts, in the order the map's
    enumeration gives them (Go leaves the order open; none of the four loops
    below depends on it). *)
Definition rangeCounts (counts : gmap Z Z) : list Z := (map_to_list counts).*2.

Fixpoint anyCount (n : Z) (cs : list Z) : bool :=
  match cs with
  | [] => false
  | count :: cs' => if count =? n then true else anyCount n cs'
  end.

Definition hasFourOfAKind (counts : gmap Z Z) : bool := anyCount 4 (rangeCounts counts).

Definition hasFullHouse (counts : gmap Z Z) : bool :=
  let '(hasThree, hasTwo) :=
    fold_left
      (fun '(hasThree, hasTwo) count =>
         if count =? 3 then (true, hasTwo)
         else if count =? 2 then (hasThree, true)
         else (hasThree, hasTwo))
      (rangeCounts counts) (false, false) in
  hasThree && hasTwo.

Definition hasThreeOfAKind (counts : gmap Z Z) : bool := anyCount 3 (rangeCounts counts).

Definition countPairs (counts : gmap Z Z) : Z :=
  fold_left (fun pairs count => if count =? 2 then goint.add pairs 1 else pairs)
    (rangeCounts counts) 0.

Fixpoint getHighCards (hand : list Card) (count : nat) : list Z :=
  match count, hand with
  | S count', c :: rest => getComparisonValue c :: getHighCards rest count'
  | _, _ => []
  end.

Definition cardValueToString (value : Z) : string :=
  if value =? 14 then "A"
  else if value =? 13 then "K"
  else if value =? 12 then "Q"
  else if value =? 11 then "J"
  else pretty value.

Definition evaluateHand (hand : list Card) : result HandResult :=
  let sortedHand := insertionSort lessCard hand in
  isFlush ← checkFlush sortedHand;
  '(isStraight, highCard) ← checkStraight sortedHand;
  if (isFlush : bool) && (isStraight : bool) then
    if highCard =? 14 then
      Ok (mkHandResult RoyalFlush "Royal Flush" sortedHand [14])
    else
      Ok (mkHandResult StraightFlush "Straight Flush" sortedHand [highCard])
  else if isFlush then
    Ok (mkHandResult Flush "Flush" sortedHand (getHighCards sortedHand 5))
  else if isStraight then
    Ok (mkHandResult Straight "Straight" sortedHand [highCard])
  else
    let valueCounts := countValues sortedHand in
    if hasFourOfAKind valueCounts then
      Ok (mkHandResult FourOfAKind "Four of a Kind" sortedHand (getHighCards sortedHand 2))
    else if hasFullHouse valueCounts then
      Ok (mkHandResult FullHouse "Full House" sortedHand (getHighCards sortedHand 2))
    else if hasThreeOfAKind valueCounts then
      Ok (mkHandResult ThreeOfAKind "Three of a Kind" sortedHand (getHighCards sortedHand 3))
    else
      let pairCount := countPairs valueCounts in
      if pairCount =? 2 then
        Ok (mkHandResult TwoPair "Two Pair" sortedHand (getHighCards sortedHand 3))
      else if pairCount =? 1 then
        Ok (mkHandResult Pair "Pair" sortedHand (getHighCards sortedHand 4))
      else
        c0 ← index sortedHand 0;
        let highCard := getComparisonValue c0 in
        Ok (mkHandResult HighCard ("High Card " +:+ cardValueToString highCard)
              sortedHand (getHighCards sortedHand 5)).

(** The loop over the high cards of [CompareHands]. *)
Fixpoint compareHighCards (h1 h2 : list Z) : Z :=
  match h1, h2 with
  | a :: h1', b :: h2' => if negb (a =? b) then goint.sub a b else compareHighCards h1' h2'
  | _, _ => 0
  end.

Definition CompareHands (hand1 hand2 : HandResult) : Z :=
  if negb (bool_decide (Rank hand1 = Rank hand2)) then
    goint.sub (rankInt (Rank hand1)) (rankInt (Rank hand2))
  else compareHighCards (HighCards hand1) (HighCards hand2).

(** The closure [generate] of [generateCombinations].  [combo] and [combos]
    are the two variables it updates; the loop
    [for i := start; i <= len(cards)-k; i++] runs over
    [seq start (len(cards) + 1 - (k + start))], and its bound keeps
    [cards[i]] in range.  [k] is a [nat]: the one caller passes 5. *)
Fixpoint generate (cards : list Card) (k : nat) (start : nat)
    (combo : list Card) (combos : list (list Card)) : list (list Card) :=
  match k with
  | O => combos ++ [combo]
  | S k' =>
      fold_left
        (fun combos i =>
           match cards !! i with
           | Some c => generate cards k' (i + 1) (combo ++ [c]) combos
           | None => combos
           end)
        (seq start (length cards + 1 - (S k' + start))) combos
  end.

Definition generateCombinations (cards : list Card) (k : nat) : list (list Card) :=
  generate cards k 0 [] [].

(** The loop [for _, combo := range combinations] of [EvaluateBestHand]. *)
Fixpoint bestOf (combinations : list (list Card)) (bestHand : HandResult) : result HandResult :=
  match combinations with
  | [] => Ok bestHand
  | combo :: rest =>
      res ← evaluateHand combo;
      let comparison := CompareHands res bestHand in
      bestOf rest (if comparison >? 0 then res else bestHand)
  end.

(** The line written to the log before returning is left out. *)
Definition EvaluateBestHand (cards : list Card) : result HandResult :=
  if (length cards <? 5)%nat then Err "not enough cards to evaluate hand"
  else
    let combinations := generateCombinations cards 5 in
    c0 ← index combinations 0;
    bestOf combinations (mkHandResult HighCard "High Card" c0 (getHighCards c0 5)).

End pokerhand.

(** ** Package holdem *)
Module holdem.
Import pokerhand.

Record PlayerHand : Type := mkPlayerHand {
  Player : Z;
  HoleCards : list Card;
  HandResult : pokerhand.HandResult
}.

Definition getComparisonValue (card : Card) : Z :=
  if Value card =? 1 then 14 else Value card.

(** The loop of [breakTie] over both players' hole cards; [None] when it
    runs to its end. *)
Fixpoint breakTieLoop (hand1 hand2 : PlayerHand) (hole1 hole2 : list Card) : option PlayerHand :=
  match hole1, hole2 with
  | c1 :: hole1', c2 :: hole2' =>
      let value1 := getComparisonValue c1 in
      let value2 := getComparisonValue c2 in
      if value1 >? value2 then Some hand1
      else if value2 >? value1 then Some hand2
      else breakTieLoop hand1 hand2 hole1' hole2'
  | _, _ => None
  end.

Definition breakTie (hand1 hand2 : PlayerHand) : PlayerHand :=
  default hand1 (breakTieLoop hand1 hand2 (HoleCards hand1) (HoleCards hand2)).

(** The loop [for i := 1; i < len(g.PlayerHands); i++] of [DetermineWinner]. *)
Fixpoint winnerLoop (winner : PlayerHand) (others : list PlayerHand) : PlayerHand :=
  match others with
  | [] => winner
  | p :: others' =>
      let comparison := CompareHands (HandResult p) (HandResult winner) in
      winnerLoop
        (if comparison >? 0 then p
         else if comparison =? 0 then breakTie winner p
         else winner)
        others'
  end.

Definition DetermineWinner (PlayerHands : list PlayerHand) : result PlayerHand :=
  winner ← index PlayerHands 0;
  Ok (winnerLoop winner (drop 1 PlayerHands)).

(** How a method that updates the game in place ends: it returns [nil],
    returns an error, or panics.  The game it leaves behind is given beside
    it. *)
Inductive status : Type :=
| Done
| Failed (msg : string)
| Panicked.

Record HoldemGame : Type := mkHoldemGame {
  Game : cardgame.Game;
  CommunityCards : list Card;
  PlayerHands : list PlayerHand;
  NumPlayers : Z
}.

Definition withGame (g : HoldemGame) (game : cardgame.Game) : HoldemGame :=
  mkHoldemGame game (CommunityCards g) (PlayerHands g) (NumPlayers g).

(** The zero value [PlayerHand{}]. *)
Definition zeroPlayerHand : PlayerHand :=
  mkPlayerHand 0 [] (mkHandResult HighCard "" [] []).

(** A [PlayerHand] takes 104 bytes: the int [Player] 8, the slice
    [HoleCards] 24, and the [HandResult] 72 (the int [Rank] 8, the string
    [Name] 16, the slices [Cards] and [HighCards] 24 each). *)
Definition sizeofPlayerHand : Z := 104.

(** [NewGame]: the fields of the literal are evaluated in order, the card
    game first, then [make([]PlayerHand, numPlayers)]. *)
Definition NewGame (numPlayers : Z) (rnd : nat → nat) : result HoldemGame :=
  game ← cardgame.NewGame numPlayers rnd;
  playerHands ← makeslice sizeofPlayerHand zeroPlayerHand numPlayers;
  Ok (mkHoldemGame game [] playerHands numPlayers).

(** The inner loop of [DealHoleCards] over the hand indices. *)
Fixpoint dealRound (handIndices : list Z) (g : HoldemGame) : status * HoldemGame :=
  match handIndices with
  | [] => (Done, g)
  | handIndex :: rest =>
      let '(err, game) := cardgame.Deal (Game g) handIndex in
      let g := withGame g game in
      match err with
      | Some msg =>
          (Failed ("error dealing to hand " +:+ pretty handIndex +:+ ": " +:+ msg), g)
      | None => dealRound rest g
      end
  end.

(** [DealHoleCards]: the outer loop [for i := 0; i < 2; i++] unrolled. *)
Definition DealHoleCards (g : HoldemGame) : status * HoldemGame :=
  match dealRound (seqZ 0 (NumPlayers g)) g with
  | (Done, g) => dealRound (seqZ 0 (NumPlayers g)) g
  | stopped => stopped
  end.

(** The loop of [DealCommunityCards], [n] rounds to go. *)
Fixpoint dealCommunity (n : nat) (g : HoldemGame) : status * HoldemGame :=
  match n with
  | O => (Done, g)
  | S n' =>
      let '(card, err, deck') := deck.Draw (cardgame.Deck (Game g)) in
      let g := withGame g (cardgame.mkGame deck' (cardgame.Hands (Game g))
                             (cardgame.ReferenceDeck (Game g))) in
      match err with
      | Some msg => (Failed ("error dealing community card: " +:+ msg), g)
      | None =>
          dealCommunity n'
            (mkHoldemGame (Game g) (CommunityCards g ++ [card]) (PlayerHands g)
               (NumPlayers g))
      end
  end.

Definition DealCommunityCards (g : HoldemGame) : status * HoldemGame :=
  dealCommunity 5 g.

(** The loop [for i, hand := range g.Game.Hands] of [EvaluateHands];
    [g.PlayerHands[i] = ...] panics when [i] is out of range. *)
Fixpoint evaluateLoop (hands : list (list Card)) (i : nat) (g : HoldemGame)
    : status * HoldemGame :=
  match hands with
  | [] => (Done, g)
  | hand :: rest =>
      let allCards := hand ++ CommunityCards g in
      match EvaluateBestHand allCards with
      | Err msg =>
          (Failed ("error evaluating hand for player " +:+ pretty (Z.of_nat i + 1)
                   +:+ ": " +:+ msg), g)
      | Panic => (Panicked, g)
      | Ok res =>
          if decide (i < length (PlayerHands g))%nat then
            evaluateLoop rest (S i)
              (mkHoldemGame (Game g) (CommunityCards g)
                 (<[i := mkPlayerHand (Z.of_nat i + 1) hand res]> (PlayerHands g))
                 (NumPlayers g))
          else (Panicked, g)
      end
  end.

Definition EvaluateHands (g : HoldemGame) : status * HoldemGame :=
  evaluateLoop (cardgame.Hands (Game g)) 0 g.

(** [PrintGameState] reads [HoleCards[0]] and [HoleCards[1]] of every
    player; what it prints is left out. *)
Fixpoint PrintGameState (playerHands : list PlayerHand) : result unit :=
  match playerHands with
  | [] => Ok ()
  | hand :: rest =>
      _ ← index (HoleCards hand) 0;
      _ ← index (HoleCards hand) 1;
      PrintGameState rest
  end.

(** What [PlayHoldem] prints last: the error it stopped at, or the winner
    and the outcome of [VerifyHands]. *)
Inductive report : Type :=
| Stopped (msg : string)
| Finished (winner : PlayerHand) (valid : bool) (invalidHands : list Z).

Definition PlayHoldem (numPlayers : Z) (rnd : nat → nat) : result report :=
  game ← NewGame numPlayers rnd;
  match DealHoleCards game with
  | (Failed msg, _) => Ok (Stopped msg)
  | (Panicked, _) => Panic
  | (Done, game) =>
      match DealCommunityCards game with
      | (Failed msg, _) => Ok (Stopped msg)
      | (Panicked, _) => Panic
      | (Done, game) =>
          match EvaluateHands game with
          | (Failed msg, _) => Ok (Stopped msg)
          | (Panicked, _) => Panic
          | (Done, game) =>
              _ ← PrintGameState (PlayerHands game);
              winner ← DetermineWinner (PlayerHands game);
              let '(valid, invalidHands) := cardgame.VerifyHands (Game game) in
              Ok (Finished winner valid invalidHands)
          end
      end
  end.

End holdem.


(** ** Vocabulary of the statements *)

Import pokerhand.

Definition validCard (c : Card) : Prop := IsValidCard c = true.

(** Every card of the hand has one and the same suit. *)
Definition sameSuit (hand : list Card) : Prop :=
  ∃ s, Forall (fun c => Suit c = s) hand.

(** The comparison value as the specification derives it from the value a
    card stores: the Ace, stored as 1, counts 14; every other value counts
    as it stands. *)
Definition aceHigh (value : Z) : Z :=
  match value with
  | 1 => 14
  | _ => value
  end.

(** Five values, each one less than the one before. *)
Definition consecutive (vs : list Z) : Prop :=
  ∃ h, vs = [h; h - 1; h - 2; h - 3; h - 4].

Definition descending (vs : list Z) : Prop := StronglySorted Z.ge vs.

(** The number of [k]-element subsets of an [n]-element set, by Pascal's
    rule. *)
Fixpoint binomial (n k : nat) : nat :=
  match k, n with
  | O, _ => 1
  | S _, O => 0
  | S k', S n' => binomial n' k' + binomial n' k
  end.

(** The subsequences of [l] of length [k]: those that take the head of [l]
    before those that skip it. *)
Fixpoint chooseFrom {A : Type} (l : list A) (k : nat) : list (list A) :=
  match k, l with
  | O, _ => [[]]
  | S _, [] => []
  | S k', x :: l' => (cons x <$> chooseFrom l' k') ++ chooseFrom l' k
  end.

(** Lexicographic order on index lists. *)
Fixpoint lexLt (ixs jxs : list nat) : Prop :=
  match ixs, jxs with
  | [], _ :: _ => True
  | i :: ixs', j :: jxs' => (i < j)%nat ∨ (i = j ∧ lexLt ixs' jxs')
  | _, [] => False
  end.

(** The cards of [cards] at the indices [ixs], in that order. *)
Definition pick (cards : list Card) (ixs : list nat) : list Card :=
  omap (fun i => cards !! i) ixs.

(** The results the classifier gives on five valid cards. *)
Definition classified (r : HandResult) : Prop :=
  ∃ hand, length hand = 5%nat ∧ Forall validCard hand ∧ evaluateHand hand = Ok r.

(** The length of the tie-break key the classifier attaches to each rank. *)
Definition keyLength (r : HandRank) : nat :=
  match r with
  | RoyalFlush | StraightFlush | Straight => 1
  | FourOfAKind | FullHouse => 2
  | ThreeOfAKind | TwoPair => 3
  | Pair => 4
  | Flush | HighCard => 5
  end.

(** Keys hold comparison values: 2 to 14. *)
Abbreviation key_values := (Forall (fun v : Z => 2 <= v <= 14)).

Definition wellFormed (r : HandResult) : Prop :=
  length (HighCards r) = keyLength (Rank r) ∧ key_values (HighCards r).

(** Two results that agree on everything but the order of cards of equal
    comparison value. *)
Definition sameClassification (r1 r2 : HandResult) : Prop :=
  Rank r1 = Rank r2 ∧ Name r1 = Name r2 ∧ HighCards r1 = HighCards r2 ∧
  map getComparisonValue (Cards r1) = map getComparisonValue (Cards r2) ∧
  Cards r1 ≡ₚ Cards r2.

(** How often the value [v] occurs among [values]. *)
Fixpoint occurrences (v : Z) (values : list Z) : Z :=
  match values with
  | [] => 0
  | x :: values' => (if x =? v then 1 else 0) + occurrences v values'
  end.

(** No card has been lost or made: the hands and the deck together hold
    the cards of the reference deck. *)
Definition conserved (g : cardgame.Game) : Prop :=
  concat (cardgame.Hands g) ++ cardgame.Deck g ≡ₚ cardgame.ReferenceDeck g.

(** The card a round of dealing gives to hand [i], when the round serves
    the hands [k], ..., [k + m - 1] from the deck [d]: none when [i] is not
    among them or the deck runs out first. *)
Definition dealtAt (d : list Card) (k m i : nat) : list Card :=
  if decide (k <= i < k + m)%nat then option_list (d !! (i - k)%nat) else [].

(** Card notation for the examples: value, then suit. *)
Definition spade (v : Z) : Card := mkCard Spades v.
Definition heart (v : Z) : Card := mkCard Hearts v.
Definition diamond (v : Z) : Card := mkCard Diamonds v.
Definition club (v : Z) : Card := mkCard Clubs v.

(** * Dealing *)

Section Deal.
Import cardgame.

Lemma Deal_bad_index (g : Game) (handIndex : Z) :
  ¬ (0 <= handIndex < Z.of_nat (length (Hands g))) →
  Deal g handIndex = (Some "no cards left in the deck", g).
Proof.
  intros Hbad. unfold Deal.
  destruct (handIndex <? 0) eqn:Hneg; [done|].
  destruct (handIndex >=? Z.of_nat (length (Hands g))) eqn:Hge; [done|].
  exfalso. apply Hbad. lia.
Qed.

Lemma Deal_in_range (g : Game) (handIndex : Z) :
  0 <= handIndex < Z.of_nat (length (Hands g)) →
  Deal g handIndex =
    match Deck g with
    | [] => (Some "no cards left in the deck", g)
    | card :: rest =>
        (None,
         mkGame rest
           (<[Z.to_nat handIndex :=
                default [] (Hands g !! Z.to_nat handIndex) ++ [card]]> (Hands g))
           (ReferenceDeck g))
    end.
Proof.
  intros Hin. unfold Deal.
  replace (handIndex <? 0) with false by lia.
  replace (handIndex >=? Z.of_nat (length (Hands g))) with false by lia.
  destruct g as [[|card rest] hands ref]; reflexivity.
Qed.

(** C10. [Deal] is atomic on error.  An index outside [0, len(Hands))
    yields an error and the same game; so does an empty deck.  An index in
    range with a card left succeeds, and a successful [Deal] takes exactly
    the first card off the deck, appends exactly that card to the selected
    hand and leaves every other hand, the number of hands and the reference
    deck as they were. *)
Theorem Deal_atomic (g : Game) (handIndex : Z) :
  (¬ (0 <= handIndex < Z.of_nat (length (Hands g))) →
     ∃ msg, Deal g handIndex = (Some msg, g)) ∧
  (0 <= handIndex < Z.of_nat (length (Hands g)) →
     (Deck g = [] → ∃ msg, Deal g handIndex = (Some msg, g)) ∧
     (Deck g ≠ [] → ∃ g', Deal g handIndex = (None, g')) ∧
     (∀ msg g', Deal g handIndex = (Some msg, g') → g' = g) ∧
     (∀ g', Deal g handIndex = (None, g') →
        ∃ card rest hand,
          Deck g = card :: rest ∧ Deck g' = rest ∧
          Hands g !! Z.to_nat handIndex = Some hand ∧
          Hands g' !! Z.to_nat handIndex = Some (hand ++ [card]) ∧
          length (Hands g') = length (Hands g) ∧
          (∀ j, j ≠ Z.to_nat handIndex → Hands g' !! j = Hands g !! j) ∧
          ReferenceDeck g' = ReferenceDeck g)).
Proof.
  split.
  - intros Hbad. eexists. by apply Deal_bad_index.
  - intros Hin. rewrite (Deal_in_range _ _ Hin).
    destruct (lookup_lt_is_Some_2 (Hands g) (Z.to_nat handIndex)) as [hand Hhand];
      [lia|].
    rewrite Hhand. simpl.
    destruct (Deck g) as [|card rest] eqn:Hdeck.
    + repeat split; [by eexists | done | by intros ?? [= _ <-] | by intros ? [=] ].
    + repeat split; [done | by eexists | by intros ?? [=] |].
      intros g' [= <-]. exists card, rest, hand. simpl.
      rewrite length_insert.
      repeat split; try done.
      * apply list_lookup_insert_eq. by eapply lookup_lt_Some.
      * intros j Hj. by apply list_lookup_insert_ne.
Qed.

Lemma Deal_atomic_witness :
  let g := mkGame [spade 9; heart 4] [[club 2]; []] [] in
  (∃ msg, Deal g 2 = (Some msg, g)) ∧
  (∃ g', Deal g 1 = (None, g')).
Proof.
  intros g. split.
  - apply (proj1 (Deal_atomic g 2)). simpl. lia.
  - apply (proj2 (Deal_atomic g 1)); simpl; [lia | done].
Defined.

End Deal.

(** * The insertion sort *)

Section insertionSort_facts.
Context {A : Type} (less : A → A → bool).

Lemma sink_Permutation (x : A) (left : list A) : sink less x left ≡ₚ x :: left.
Proof.
  induction left as [|y left IH]; simpl; [done|].
  destruct (less x y); [|done].
  rewrite IH. apply Permutation_swap.
Qed.

Lemma passes_Permutation (data left : list A) :
  fold_left (fun left x => sink less x left) data left ≡ₚ data ++ left.
Proof.
  revert left. induction data as [|x data IH]; intros left; simpl; [done|].
  rewrite IH, sink_Permutation. by rewrite Permutation_middle.
Qed.

Lemma insertionSort_Permutation (data : list A) : insertionSort less data ≡ₚ data.
Proof.
  unfold insertionSort. rewrite <- Permutation_rev, passes_Permutation.
  by rewrite app_nil_r.
Qed.

Lemma insertionSort_length (data : list A) :
  length (insertionSort less data) = length data.
Proof. apply Permutation_length, insertionSort_Permutation. Qed.
End insertionSort_facts.

Section insertionSort_map.
Context {A B : Type} (f : A → B) (lessA : A → A → bool) (lessB : B → B → bool).
Hypothesis less_f : ∀ a b, lessA a b = lessB (f a) (f b).

Lemma sink_map (x : A) (left : list A) :
  map f (sink lessA x left) = sink lessB (f x) (map f left).
Proof.
  induction left as [|y left IH]; simpl; [done|].
  rewrite <- less_f. destruct (lessA x y); simpl; by rewrite ?IH.
Qed.

Lemma passes_map (data left : list A) :
  map f (fold_left (fun left x => sink lessA x left) data left) =
  fold_left (fun left x => sink lessB x left) (map f data) (map f left).
Proof.
  revert left. induction data as [|x data IH]; intros left; simpl; [done|].
  by rewrite IH, sink_map.
Qed.

Lemma insertionSort_map (data : list A) :
  map f (insertionSort lessA data) = insertionSort lessB (map f data).
Proof. unfold insertionSort. by rewrite map_rev, passes_map. Qed.
End insertionSort_map.

#[local] Instance Zge_antisymm : AntiSymm (=) Z.ge.
Proof. intros x y ??. lia. Qed.

Lemma sink_ascending (x : Z) (left : list Z) :
  StronglySorted Z.le left → StronglySorted Z.le (sink lessIntReverse x left).
Proof.
  induction left as [|y left IH]; simpl; intros Hs.
  - repeat constructor.
  - apply StronglySorted_cons in Hs as [Hy Hs]. unfold lessIntReverse at 1.
    destruct (y <? x) eqn:Hyx.
    + apply StronglySorted_cons. split; [|by apply IH].
      rewrite sink_Permutation. constructor; [lia|done].
    + apply StronglySorted_cons. split.
      * constructor; [lia|]. eapply Forall_impl; [exact Hy|]. simpl. lia.
      * by apply StronglySorted_cons.
Qed.

Lemma passes_ascending (data left : list Z) :
  StronglySorted Z.le left →
  StronglySorted Z.le (fold_left (fun left x => sink lessIntReverse x left) data left).
Proof.
  revert left. induction data as [|x data IH]; intros left Hs; simpl; [done|].
  by apply IH, sink_ascending.
Qed.

Lemma rev_descending (l : list Z) : StronglySorted Z.le l → descending (rev l).
Proof.
  unfold descending. induction 1 as [|x l Hs IH Hx]; simpl; [constructor|].
  apply StronglySorted_app. split_and!; [|done|repeat constructor].
  intros a b Ha Hb. apply list_elem_of_In, in_rev, list_elem_of_In in Ha.
  apply list_elem_of_singleton in Hb as ->.
  rewrite Forall_forall in Hx. specialize (Hx _ Ha). lia.
Qed.

Lemma sortInts_descending (values : list Z) :
  descending (insertionSort lessIntReverse values).
Proof. apply rev_descending, passes_ascending. constructor. Qed.

Lemma descending_unique (l1 l2 : list Z) :
  descending l1 → descending l2 → l1 ≡ₚ l2 → l1 = l2.
Proof. apply StronglySorted_unique; apply _. Qed.

(** Whatever the order of the values, sorting them gives the one descending
    arrangement. *)
Lemma sortInts_unique (values vs : list Z) :
  vs ≡ₚ values → descending vs → insertionSort lessIntReverse values = vs.
Proof.
  intros Hp Hs. apply descending_unique; [apply sortInts_descending|done|].
  by rewrite insertionSort_Permutation.
Qed.

Lemma lessCard_values (a b : Card) :
  lessCard a b = lessIntReverse (getComparisonValue a) (getComparisonValue b).
Proof. unfold lessCard, lessIntReverse. apply Z.gtb_ltb. Qed.

Lemma sortedHand_values (hand : list Card) :
  map getComparisonValue (insertionSort lessCard hand) =
  insertionSort lessIntReverse (map getComparisonValue hand).
Proof. apply insertionSort_map, lessCard_values. Qed.

(** Sorting the values of the sorted hand again changes nothing. *)
Lemma sortedHand_values_again (hand : list Card) :
  insertionSort lessIntReverse (map getComparisonValue (insertionSort lessCard hand)) =
  insertionSort lessIntReverse (map getComparisonValue hand).
Proof.
  apply sortInts_unique; [|apply sortInts_descending].
  rewrite insertionSort_Permutation.
  apply Permutation_map. symmetry. apply insertionSort_Permutation.
Qed.

(** * Values, flushes and straights *)

Lemma wrap_inRange (z : Z) : goint.inRange z → goint.wrap z = z.
Proof.
  unfold goint.inRange, goint.wrap. intros Hz.
  rewrite Z.mod_small by lia. lia.
Qed.

Lemma incr_small (a : Z) : -1000 <= a <= 1000 → goint.add a 1 = a + 1.
Proof. intros ?. apply wrap_inRange. unfold goint.inRange. lia. Qed.

Lemma add_small (a b : Z) : -100 <= a <= 100 → -100 <= b <= 100 → goint.add a b = a + b.
Proof. intros ??. apply wrap_inRange. unfold goint.inRange. lia. Qed.

Lemma sub_small (a b : Z) : -100 <= a <= 100 → -100 <= b <= 100 → goint.sub a b = a - b.
Proof. intros ??. apply wrap_inRange. unfold goint.inRange. lia. Qed.

Lemma validCard_value (c : Card) : validCard c → 2 <= getComparisonValue c <= 14.
Proof.
  unfold validCard, IsValidCard, getComparisonValue. intros Hv.
  destruct (Value c =? 1) eqn:Hace; lia.
Qed.

Lemma valid_values (hand : list Card) :
  Forall validCard hand → Forall (fun v => 2 <= v <= 14) (map getComparisonValue hand).
Proof.
  intros Hv. apply Forall_map. eapply Forall_impl; [exact Hv|].
  intros c. apply validCard_value.
Qed.

Lemma allSuit_Forall (suit : Z) (rest : list Card) :
  allSuit suit rest = true ↔ Forall (fun c => Suit c = suit) rest.
Proof.
  induction rest as [|c rest IH]; simpl; [by split; [constructor|]|].
  rewrite Forall_cons. destruct (Suit c =? suit) eqn:Hs; simpl.
  - rewrite IH. split; [split; [lia | done] | by intros [_ ?]].
  - split; [done | intros [? _]; lia].
Qed.

Lemma sameSuit_Permutation (h1 h2 : list Card) : h1 ≡ₚ h2 → sameSuit h1 → sameSuit h2.
Proof. intros Hp [s Hs]. exists s. by rewrite <- Hp. Qed.

(** [checkFlush] decides [sameSuit] on every hand that has a card. *)
Lemma checkFlush_sameSuit (hand : list Card) :
  hand ≠ [] → ∃ b, checkFlush hand = Ok b ∧ (b = true ↔ sameSuit hand).
Proof.
  destruct hand as [|c0 rest]; [done|]. intros _. eexists. split; [done|].
  rewrite allSuit_Forall. split.
  - intros Hr. exists (Suit c0). by constructor.
  - intros [s Hs]. apply Forall_cons in Hs as [<- Hs]. done.
Qed.

Lemma checkFlush_Permutation (h1 h2 : list Card) :
  h1 ≡ₚ h2 → checkFlush h1 = checkFlush h2.
Proof.
  intros Hp. destruct (decide (h1 = [])) as [->|Hne1].
  { by apply Permutation_nil in Hp as ->. }
  assert (h2 ≠ []) as Hne2.
  { intros ->. by apply Permutation_nil_r in Hp. }
  destruct (checkFlush_sameSuit h1 Hne1) as (b1 & -> & Hb1).
  destruct (checkFlush_sameSuit h2 Hne2) as (b2 & -> & Hb2).
  f_equal. apply eq_true_iff_eq. rewrite Hb1, Hb2.
  split; apply sameSuit_Permutation; done.
Qed.

(** What [checkStraight] computes once the five sorted values are known. *)
Lemma checkStraight_five (hand : list Card) (a b c d e : Z) :
  insertionSort lessIntReverse (map getComparisonValue hand) = [a; b; c; d; e] →
  Forall (fun v => 2 <= v <= 14) [a; b; c; d; e] →
  checkStraight hand =
    Ok (if (a =? b + 1) && (b =? c + 1) && (c =? d + 1) && (d =? e + 1)
        then (true, a)
        else if (a =? 14) && (b =? 5) && (c =? 4) && (d =? 3) && (e =? 2)
        then (true, 5) else (false, 0)).
Proof.
  intros Hvs Hb. unfold checkStraight. rewrite Hvs. clear Hvs.
  repeat (apply Forall_cons in Hb as [? Hb]).
  unfold regularStraight. rewrite !add_small by lia.
  destruct (a =? b + 1) eqn:?, (b =? c + 1) eqn:?, (c =? d + 1) eqn:?,
    (d =? e + 1) eqn:?; simpl; try reflexivity;
  unfold valueIs, andAlso; simpl;
  destruct (a =? 14), (b =? 5), (c =? 4), (d =? 3), (e =? 2); reflexivity.
Qed.

(** The sorted values of five valid cards. *)
Lemma five_sorted_values (hand : list Card) (vs : list Z) :
  length hand = 5%nat → Forall validCard hand →
  vs ≡ₚ map getComparisonValue hand → descending vs →
  insertionSort lessIntReverse (map getComparisonValue hand) = vs ∧
  Forall (fun v => 2 <= v <= 14) vs ∧
  ∃ a b c d e, vs = [a; b; c; d; e].
Proof.
  intros Hlen Hvalid Hp Hs. split_and!.
  - by apply sortInts_unique.
  - rewrite Hp. by apply valid_values.
  - apply Permutation_length in Hp. rewrite length_map, Hlen in Hp.
    destruct vs as [|a [|b [|c [|d [|e [|? ?]]]]]]; try done. by exists a, b, c, d, e.
Qed.

Lemma getHighCards_take (hand : list Card) (count : nat) :
  getHighCards hand count = take count (map getComparisonValue hand).
Proof.
  revert hand. induction count as [|count IH]; intros [|c rest]; simpl; try done.
  by rewrite IH.
Qed.

Lemma countValues_values (hand : list Card) :
  countValues hand =
  fold_left (fun counts v => <[v := goint.add (default 0 (counts !! v)) 1]> counts)
    (map getComparisonValue hand) ∅.
Proof.
  unfold countValues. generalize (∅ : gmap Z Z).
  induction hand as [|c rest IH]; intros counts; simpl; [done|]. by rewrite IH.
Qed.

(** * The classifier has no error result *)

(** With five or more values every index the straight check reads exists. *)
Lemma checkStraight_returns (hand : list Card) :
  (5 <= length hand)%nat → ∃ isStraight highCard, checkStraight hand = Ok (isStraight, highCard).
Proof.
  intros Hlen. unfold checkStraight.
  set (values := insertionSort lessIntReverse (map getComparisonValue hand)).
  assert (5 <= length values)%nat as Hv.
  { subst values. by rewrite insertionSort_length, length_map. }
  destruct values as [|a [|b [|c [|d [|e rest]]]]]; simpl in Hv; try lia.
  destruct (regularStraight _); simpl; [by eauto|].
  unfold valueIs, andAlso; simpl.
  destruct (a =? 14), (b =? 5), (c =? 4), (d =? 3), (e =? 2); simpl; eauto.
Qed.

Lemma evaluateHand_returns (hand : list Card) :
  (5 <= length hand)%nat → ∃ r, evaluateHand hand = Ok r.
Proof.
  intros Hlen. unfold evaluateHand.
  set (sortedHand := insertionSort lessCard hand).
  assert (length sortedHand = length hand) as Hs by apply insertionSort_length.
  destruct (checkStraight_returns sortedHand) as (st & hc & ->); [lia|].
  destruct sortedHand as [|c0 rest] eqn:Hsorted; [simpl in Hs; lia|].
  simpl. repeat case_match; eauto.
Qed.

(** C5 (amended).  The classifier has no error result and checks neither
    the number of cards nor their validity: on five or more cards, valid or
    not, it returns a classification.  It stops without a result only by a
    run-time index error, which needs fewer than five cards; the empty hand
    always does. *)
Theorem evaluateHand_never_rejects (hand : list Card) :
  ((5 <= length hand)%nat → ∃ r, evaluateHand hand = Ok r) ∧
  (∀ msg, evaluateHand hand ≠ Err msg) ∧
  (evaluateHand hand = Panic → (length hand < 5)%nat) ∧
  (hand = [] → evaluateHand hand = Panic).
Proof.
  split_and!.
  - apply evaluateHand_returns.
  - intros msg. unfold evaluateHand.
    generalize (insertionSort lessCard hand) as sortedHand. intros sortedHand.
    destruct (checkFlush sortedHand) as [isFlush| |] eqn:Hfl; simpl;
      [|by destruct sortedHand|done].
    unfold checkStraight.
    generalize (insertionSort lessIntReverse (map getComparisonValue sortedHand))
      as values.
    intros values. unfold valueIs, andAlso, index.
    destruct (regularStraight values); simpl.
    + destruct (values !! 0%nat); simpl; [|done]. repeat case_match; done.
    + destruct (values !! 0%nat) as [v0|]; simpl; [|done].
      destruct (v0 =? 14); simpl; [|repeat case_match; done].
      destruct (values !! 1%nat) as [v1|]; simpl; [|done].
      destruct (v1 =? 5); simpl; [|repeat case_match; done].
      destruct (values !! 2%nat) as [v2|]; simpl; [|done].
      destruct (v2 =? 4); simpl; [|repeat case_match; done].
      destruct (values !! 3%nat) as [v3|]; simpl; [|done].
      destruct (v3 =? 3); simpl; [|repeat case_match; done].
      destruct (values !! 4%nat) as [v4|]; simpl; [|done].
      repeat case_match; done.
  - intros Hp. destruct (le_lt_dec 5 (length hand)) as [Hge|Hlt]; [|done].
    destruct (evaluateHand_returns hand Hge) as [r Hr]. congruence.
  - by intros ->.
Qed.

Lemma evaluateHand_never_rejects_witness :
  ∃ r, evaluateHand [spade 2; heart 9; club 4; mkCard 7 0; diamond 11; club 6] = Ok r.
Proof.
  apply (proj1 (evaluateHand_never_rejects
                  [spade 2; heart 9; club 4; mkCard 7 0; diamond 11; club 6])).
  simpl. lia.
Defined.

(** C5, counterexample.  Six valid cards are classified (as a straight
    flush made of six cards), and so are five cards one of which has suit 7
    and value 0: no InvalidHandSize and no InvalidCard is signalled. *)
Lemma evaluateHand_accepts_invalid_input :
  length [spade 3; spade 4; spade 5; spade 6; spade 7; spade 8] ≠ 5%nat ∧
  evaluateHand [spade 3; spade 4; spade 5; spade 6; spade 7; spade 8] =
    Ok (mkHandResult StraightFlush "Straight Flush"
          [spade 8; spade 7; spade 6; spade 5; spade 4; spade 3] [8]) ∧
  IsValidCard (mkCard 7 0) = false ∧
  evaluateHand [spade 2; heart 9; club 4; mkCard 7 0; diamond 11] =
    Ok (mkHandResult HighCard "High Card J"
          [diamond 11; heart 9; club 4; spade 2; mkCard 7 0] [11; 9; 4; 2; 0]).
Proof. split_and!; [simpl; lia | vm_compute; reflexivity..]. Qed.

(** * The straight check *)

Lemma consecutive_iff (a b c d e : Z) :
  consecutive [a; b; c; d; e] ↔ a = b + 1 ∧ b = c + 1 ∧ c = d + 1 ∧ d = e + 1.
Proof.
  unfold consecutive. split.
  - intros [h [= -> -> -> -> ->]]. lia.
  - intros (-> & -> & -> & ->). exists (e + 1 + 1 + 1 + 1). repeat f_equal; lia.
Qed.

(** The two checks of [evaluateHand] see the sorted hand; they give what
    they give on the hand itself. *)
Lemma checkStraight_sortedHand (hand : list Card) :
  checkStraight (insertionSort lessCard hand) = checkStraight hand.
Proof. unfold checkStraight. by rewrite sortedHand_values_again. Qed.

Lemma checkFlush_sortedHand (hand : list Card) :
  checkFlush (insertionSort lessCard hand) = checkFlush hand.
Proof. apply checkFlush_Permutation, insertionSort_Permutation. Qed.

(** The classifier's comparison value is the specification's. *)
Lemma getComparisonValue_aceHigh (c : Card) :
  getComparisonValue c = aceHigh (Value c).
Proof.
  unfold getComparisonValue, aceHigh.
  destruct (Value c =? 1) eqn:Hace.
  - by replace (Value c) with 1 by lia.
  - by destruct (Value c) as [|[q|q|]|q].
Qed.

(** C6. On five valid cards the straight check succeeds exactly when the
    comparison values (Ace 14, every other card its value), sorted
    descending, are consecutive or are 14,5,4,3,2.  A consecutive run
    reports its first value, the ace-low run reports 5.  Ace to five in
    mixed suits is classified Straight with key [5]; a run headed by 14 in
    one suit, that is ten to Ace, is classified RoyalFlush. *)
Theorem checkStraight_spec (hand : list Card) (vs : list Z) :
  length hand = 5%nat → Forall validCard hand →
  vs ≡ₚ map aceHigh (map Value hand) → descending vs →
  (∃ isStraight highCard,
     checkStraight hand = Ok (isStraight, highCard) ∧
     (isStraight = true ↔ consecutive vs ∨ vs = [14; 5; 4; 3; 2]) ∧
     (consecutive vs → head vs = Some highCard) ∧
     (vs = [14; 5; 4; 3; 2] → highCard = 5)) ∧
  (vs = [14; 5; 4; 3; 2] → ¬ sameSuit hand →
     ∃ r, evaluateHand hand = Ok r ∧ Rank r = Straight ∧ HighCards r = [5]) ∧
  (consecutive vs → head vs = Some 14 → sameSuit hand →
     ∃ r, evaluateHand hand = Ok r ∧ Rank r = RoyalFlush) ∧
  (map Value hand ≡ₚ [1; 2; 3; 4; 5] → ¬ sameSuit hand →
     ∃ r, evaluateHand hand = Ok r ∧ Rank r = Straight ∧ HighCards r = [5]) ∧
  (map Value hand ≡ₚ [10; 11; 12; 13; 1] → sameSuit hand →
     ∃ r, evaluateHand hand = Ok r ∧ Rank r = RoyalFlush).
Proof.
  intros Hlen Hvalid Hspec Hdesc.
  assert (map aceHigh (map Value hand) = map getComparisonValue hand) as Hcv.
  { rewrite map_map. apply map_ext. intros c. symmetry.
    apply getComparisonValue_aceHigh. }
  assert (∀ raw sorted, map Value hand ≡ₚ raw → map aceHigh raw ≡ₚ sorted →
                        descending sorted → vs = sorted) as Hraw.
  { intros raw sorted Hr Hp Hs. apply descending_unique; [done..|].
    etrans; [exact Hspec|]. etrans; [apply Permutation_map; exact Hr|exact Hp]. }
  pose proof Hspec as Hp. rewrite Hcv in Hp. clear Hspec Hcv.
  destruct (five_sorted_values hand vs) as (Hsort & Hb & a & b & c & d & e & ->);
    try done.
  pose proof (checkStraight_five hand a b c d e Hsort Hb) as Hcs.
  assert (hand ≠ []) as Hne by (by destruct hand).
  destruct (checkFlush_sameSuit hand Hne) as (isFlush & Hfl & Hsame).
  pose proof (consecutive_iff a b c d e) as Hrun.
  repeat (apply Forall_cons in Hb as [? Hb]).
  assert ([a; b; c; d; e] = [14; 5; 4; 3; 2] → ¬ sameSuit hand →
          ∃ r, evaluateHand hand = Ok r ∧ Rank r = Straight ∧ HighCards r = [5])
    as Hwheel.
  { intros [= -> -> -> -> ->] Hmixed.
    unfold evaluateHand.
    rewrite checkFlush_sortedHand, checkStraight_sortedHand, Hfl, Hcs.
    destruct isFlush; [by destruct Hmixed; apply Hsame|].
    simpl. by eexists. }
  assert (consecutive [a; b; c; d; e] → head [a; b; c; d; e] = Some 14 →
          sameSuit hand → ∃ r, evaluateHand hand = Ok r ∧ Rank r = RoyalFlush)
    as Hroyal.
  { rewrite Hrun. intros Hreg [= ->] Hsuit.
    unfold evaluateHand.
    rewrite checkFlush_sortedHand, checkStraight_sortedHand, Hfl, Hcs.
    replace isFlush with true by (symmetry; by apply Hsame).
    replace ((14 =? b + 1) && (b =? c + 1) && (c =? d + 1) && (d =? e + 1))
      with true by lia.
    simpl. by eexists. }
  split_and!; [|done|done| |].
  - rewrite Hcs. setoid_rewrite Hrun.
    destruct ((a =? b + 1) && (b =? c + 1) && (c =? d + 1) && (d =? e + 1)) eqn:Hreg.
    + exists true, a. split_and!; [done| |done|intros [= -> -> -> -> ->]; lia].
      split; [intros _; left; lia|done].
    + destruct ((a =? 14) && (b =? 5) && (c =? 4) && (d =? 3) && (e =? 2)) eqn:Hlow.
      * exists true, 5. split_and!; [done| |lia|done].
        split; [intros _; right; repeat f_equal; lia|done].
      * exists false, 0. split_and!; [done| |lia|intros [= -> -> -> -> ->]; done].
        split; [done|]. intros [?|[= -> -> -> -> ->]]; [lia|done].
  - intros Hvalues Hmixed. apply Hwheel; [|done].
    apply (Hraw [1; 2; 3; 4; 5]); [done| |unfold descending; repeat constructor; lia].
    simpl. apply perm_skip. apply (Permutation_rev [2; 3; 4; 5]).
  - intros Hvalues Hsuit.
    assert ([a; b; c; d; e] = [14; 13; 12; 11; 10]) as Heq.
    { apply (Hraw [10; 11; 12; 13; 1]);
        [done| |unfold descending; repeat constructor; lia].
      simpl. apply (Permutation_rev [10; 11; 12; 13; 14]). }
    injection Heq as -> -> -> -> ->.
    apply Hroyal; [apply consecutive_iff; lia|done|done].
Qed.

Lemma checkStraight_spec_witness :
  ∃ r, evaluateHand [heart 1; spade 5; club 4; diamond 3; spade 2] = Ok r ∧
       Rank r = Straight ∧ HighCards r = [5].
Proof.
  apply (proj1 (proj2 (proj2 (proj2 (checkStraight_spec
            [heart 1; spade 5; club 4; diamond 3; spade 2] [14; 5; 4; 3; 2]
            eq_refl
            ltac:(repeat constructor)
            ltac:(reflexivity)
            ltac:(unfold descending; repeat constructor; lia)))))).
  - simpl. apply perm_skip. apply (Permutation_rev [5; 4; 3; 2]).
  - intros [s Hs]. inversion Hs as [|? ? H1 Hs']. inversion Hs' as [|? ? H2 _].
    simpl in H1, H2. unfold Hearts, Spades in *. lia.
Defined.

(** * Shape of the classifier's results *)

Lemma rankInt_bounds (r : HandRank) : 0 <= rankInt r <= 9.
Proof. destruct r; simpl; lia. Qed.

Lemma rankInt_inj (r1 r2 : HandRank) : rankInt r1 = rankInt r2 → r1 = r2.
Proof. destruct r1, r2; simpl; intros; done || lia. Qed.

Lemma highCards_wellFormed (sortedHand : list Card) (count : nat) :
  (count <= length sortedHand)%nat →
  Forall (fun v => 2 <= v <= 14) (map getComparisonValue sortedHand) →
  length (getHighCards sortedHand count) = count ∧
  Forall (fun v => 2 <= v <= 14) (getHighCards sortedHand count).
Proof.
  intros Hlen Hb. rewrite getHighCards_take. split.
  - rewrite length_take, length_map. lia.
  - by apply Forall_take.
Qed.

(** On five valid cards the key has the length its rank prescribes and
    holds comparison values only. *)
Lemma evaluateHand_wellFormed (hand : list Card) (r : HandResult) :
  length hand = 5%nat → Forall validCard hand → evaluateHand hand = Ok r →
  wellFormed r.
Proof.
  intros Hlen Hvalid. unfold evaluateHand.
  set (sortedHand := insertionSort lessCard hand).
  assert (sortedHand ≡ₚ hand) as Hperm by apply insertionSort_Permutation.
  assert (length sortedHand = 5%nat) as Hslen by (by rewrite Hperm).
  assert (Forall validCard sortedHand) as Hsvalid by (by rewrite Hperm).
  pose proof (valid_values _ Hsvalid) as Hvals.
  destruct (five_sorted_values sortedHand
              (insertionSort lessIntReverse (map getComparisonValue sortedHand)))
    as (_ & Hb & a & b & c & d & e & Hvs); try done.
  { apply insertionSort_Permutation. }
  { apply sortInts_descending. }
  rewrite Hvs in Hb.
  rewrite (checkStraight_five sortedHand a b c d e Hvs Hb).
  repeat (apply Forall_cons in Hb as [? Hb]).
  destruct (checkFlush_sameSuit sortedHand) as (isFlush & -> & _);
    [by destruct sortedHand|].
  assert (∀ count, (count <= 5)%nat →
            length (getHighCards sortedHand count) = count ∧
            Forall (fun v => 2 <= v <= 14) (getHighCards sortedHand count)) as Hkey.
  { intros count Hc. apply highCards_wellFormed; [lia|done]. }
  assert (∃ c0, index sortedHand 0 = Ok c0) as [c0 ->].
  { destruct sortedHand; [done | by eexists]. }
  clearbody sortedHand. simpl.
  destruct ((a =? b + 1) && (b =? c + 1) && (c =? d + 1) && (d =? e + 1));
    [|destruct ((a =? 14) && (b =? 5) && (c =? 4) && (d =? 3) && (e =? 2))];
    destruct isFlush; simpl;
    repeat case_match;
    intros [= <-]; unfold wellFormed; simpl;
    try (apply Hkey; lia);
    (split; [done | repeat constructor; lia]).
Qed.

Lemma classified_wellFormed (r : HandResult) : classified r → wellFormed r.
Proof. intros (hand & ? & ? & ?). by eapply evaluateHand_wellFormed. Qed.

(** * The comparator *)

Lemma compareHighCards_refl (h : list Z) : compareHighCards h h = 0.
Proof. induction h as [|a h IH]; simpl; [done|]. by rewrite Z.eqb_refl. Qed.

Lemma CompareHands_refl (x : HandResult) : CompareHands x x = 0.
Proof.
  unfold CompareHands. rewrite bool_decide_eq_true_2 by done. simpl.
  apply compareHighCards_refl.
Qed.

(** On comparison values the subtraction does not wrap. *)
Lemma compareHighCards_cons (a b : Z) (h1 h2 : list Z) :
  2 <= a <= 14 → 2 <= b <= 14 →
  compareHighCards (a :: h1) (b :: h2) =
    if a =? b then compareHighCards h1 h2 else a - b.
Proof.
  intros Ha Hb. simpl. destruct (a =? b); simpl; [done|]. apply sub_small; lia.
Qed.

Lemma compareHighCards_flip (h1 h2 : list Z) :
  key_values h1 → key_values h2 →
  compareHighCards h2 h1 = - compareHighCards h1 h2.
Proof.
  intros H1. revert h2. induction H1 as [|a h1 Ha H1 IH]; intros h2 H2.
  - by destruct h2.
  - destruct H2 as [|b h2 Hb H2]; [done|].
    rewrite !compareHighCards_cons by done.
    rewrite (Z.eqb_sym b a). destruct (a =? b); [by apply IH | lia].
Qed.

(** The first position at which two keys differ decides. *)
Lemma compareHighCards_first_difference (h1 h2 : list Z) (i : nat) (a b : Z) :
  key_values h1 → key_values h2 →
  take i h1 = take i h2 → h1 !! i = Some a → h2 !! i = Some b → a ≠ b →
  compareHighCards h1 h2 = a - b.
Proof.
  intros H1. revert h2 i. induction H1 as [|a1 h1 Ha H1 IH]; intros h2 i H2 Ht Hi1 Hi2 Hne.
  - done.
  - destruct H2 as [|b1 h2 Hb H2]; [done|].
    rewrite compareHighCards_cons by done.
    destruct i as [|i]; simpl in *.
    + injection Hi1 as ->. injection Hi2 as ->.
      by rewrite (proj2 (Z.eqb_neq a b)).
    + injection Ht as -> Ht. rewrite Z.eqb_refl. by eapply IH.
Qed.

Lemma compareHighCards_zero (h1 h2 : list Z) :
  key_values h1 → key_values h2 → length h1 = length h2 →
  compareHighCards h1 h2 = 0 → h1 = h2.
Proof.
  intros H1. revert h2. induction H1 as [|a h1 Ha H1 IH]; intros h2 H2 Hlen Hc.
  - by destruct h2.
  - destruct H2 as [|b h2 Hb H2]; [done|].
    rewrite compareHighCards_cons in Hc by done.
    destruct (a =? b) eqn:Hab; [|lia].
    apply Z.eqb_eq in Hab as ->. f_equal. apply IH; [done|by injection Hlen|done].
Qed.

Lemma compareHighCards_trans (h1 h2 h3 : list Z) :
  key_values h1 → key_values h2 → key_values h3 →
  length h1 = length h2 → length h2 = length h3 →
  compareHighCards h1 h2 >= 0 → compareHighCards h2 h3 >= 0 →
  compareHighCards h1 h3 >= 0.
Proof.
  intros H1. revert h2 h3.
  induction H1 as [|a h1 Ha H1 IH]; intros h2 h3 H2 H3 L12 L23.
  - by destruct h3.
  - destruct H2 as [|b h2 Hb H2]; [done|]. destruct H3 as [|c h3 Hc H3]; [done|].
    rewrite !compareHighCards_cons by done.
    destruct (a =? b) eqn:Hab, (b =? c) eqn:Hbc, (a =? c) eqn:Hac; try lia.
    simpl in L12, L23. apply IH; try done; lia.
Qed.

(** [CompareHands] without the wrap-around, on results of the classifier. *)
Lemma CompareHands_plain (x y : HandResult) :
  CompareHands x y =
    if bool_decide (Rank x = Rank y)
    then compareHighCards (HighCards x) (HighCards y)
    else rankInt (Rank x) - rankInt (Rank y).
Proof.
  unfold CompareHands. destruct (bool_decide (Rank x = Rank y)); simpl; [done|].
  pose proof (rankInt_bounds (Rank x)). pose proof (rankInt_bounds (Rank y)).
  apply sub_small; lia.
Qed.

Lemma CompareHands_flip (x y : HandResult) :
  wellFormed x → wellFormed y → CompareHands y x = - CompareHands x y.
Proof.
  intros [_ Hx] [_ Hy]. rewrite !CompareHands_plain.
  destruct (decide (Rank x = Rank y)) as [Heq|Hne].
  - rewrite !bool_decide_eq_true_2 by done. by apply compareHighCards_flip.
  - rewrite !bool_decide_eq_false_2 by done. lia.
Qed.

Lemma CompareHands_ge (x y : HandResult) :
  CompareHands x y >= 0 ↔
  rankInt (Rank x) > rankInt (Rank y) ∨
  (Rank x = Rank y ∧ compareHighCards (HighCards x) (HighCards y) >= 0).
Proof.
  rewrite CompareHands_plain. destruct (decide (Rank x = Rank y)) as [Heq|Hne].
  - rewrite bool_decide_eq_true_2 by done. rewrite Heq. split; [by right|].
    intros [?|[_ ?]]; [lia|done].
  - rewrite bool_decide_eq_false_2 by done.
    assert (rankInt (Rank x) ≠ rankInt (Rank y)) by (by intros ?%rankInt_inj).
    split; [left; lia|]. intros [?|[? _]]; [lia|done].
Qed.

Lemma CompareHands_trans (x y z : HandResult) :
  wellFormed x → wellFormed y → wellFormed z →
  CompareHands x y >= 0 → CompareHands y z >= 0 → CompareHands x z >= 0.
Proof.
  intros [Lx Hx] [Ly Hy] [Lz Hz]. rewrite !CompareHands_ge.
  intros [Hxy|[Hxy Kxy]] [Hyz|[Hyz Kyz]].
  - left. lia.
  - left. rewrite <- Hyz. lia.
  - left. rewrite Hxy. lia.
  - right. split; [congruence|].
    apply (compareHighCards_trans _ (HighCards y)); congruence.
Qed.

(** C8. On the results of the classifier [CompareHands] is a total order:
    each comparison has exactly one outcome and the reversed comparison has
    the opposite one; a higher rank wins whatever the keys; for equal ranks
    equal keys compare equal, the first position at which the keys differ
    decides, and only equal keys compare equal; every result compares equal
    to itself; and the order is transitive. *)
Theorem CompareHands_total_order (x y z : HandResult) :
  classified x → classified y → classified z →
  ((CompareHands x y < 0 ∧ CompareHands y x > 0) ∨
   (CompareHands x y = 0 ∧ CompareHands y x = 0) ∨
   (CompareHands x y > 0 ∧ CompareHands y x < 0)) ∧
  (rankInt (Rank x) < rankInt (Rank y) → CompareHands x y < 0) ∧
  (rankInt (Rank x) > rankInt (Rank y) → CompareHands x y > 0) ∧
  (Rank x = Rank y →
     (HighCards x = HighCards y → CompareHands x y = 0) ∧
     (∀ i a b,
        take i (HighCards x) = take i (HighCards y) →
        HighCards x !! i = Some a → HighCards y !! i = Some b → a ≠ b →
        (a < b → CompareHands x y < 0) ∧ (a > b → CompareHands x y > 0)) ∧
     (CompareHands x y = 0 → HighCards x = HighCards y)) ∧
  CompareHands x x = 0 ∧
  (CompareHands x y >= 0 → CompareHands y z >= 0 → CompareHands x z >= 0).
Proof.
  intros Hx%classified_wellFormed Hy%classified_wellFormed Hz%classified_wellFormed.
  split_and!.
  - rewrite (CompareHands_flip x y) by done. lia.
  - intros Hlt. rewrite CompareHands_plain, bool_decide_eq_false_2; [lia|].
    intros Heq. rewrite Heq in Hlt. lia.
  - intros Hgt. rewrite CompareHands_plain, bool_decide_eq_false_2; [lia|].
    intros Heq. rewrite Heq in Hgt. lia.
  - intros Hrank. rewrite CompareHands_plain, bool_decide_eq_true_2 by done.
    destruct Hx as [Lx Hx], Hy as [Ly Hy]. split_and!.
    + intros ->. apply compareHighCards_refl.
    + intros i a b Ht Ha Hb Hne.
      rewrite (compareHighCards_first_difference _ _ i a b) by done. lia.
    + apply compareHighCards_zero; congruence.
  - apply CompareHands_refl.
  - by apply CompareHands_trans.
Qed.

Lemma CompareHands_total_order_witness :
  let flush := mkHandResult Flush "Flush"
                 [spade 13; spade 9; spade 7; spade 4; spade 2] [13; 9; 7; 4; 2] in
  let pair := mkHandResult Pair "Pair"
                [spade 12; heart 8; club 8; diamond 5; club 3] [12; 8; 8; 5] in
  CompareHands flush flush = 0 ∧
  (CompareHands flush pair >= 0 → CompareHands pair pair >= 0 →
   CompareHands flush pair >= 0).
Proof.
  intros flush pair.
  assert (classified flush) as Hf.
  { exists [spade 9; spade 13; spade 2; spade 7; spade 4].
    split_and!; [reflexivity | repeat constructor | vm_compute; reflexivity]. }
  assert (classified pair) as Hp.
  { exists [heart 8; spade 12; club 8; diamond 5; club 3].
    split_and!; [reflexivity | repeat constructor | vm_compute; reflexivity]. }
  exact (proj2 (proj2 (proj2 (proj2 (CompareHands_total_order flush pair pair Hf Hp Hp))))).
Defined.

(** * The combination generator *)

Section chooseFrom_facts.
Context {A : Type}.
Implicit Types (l c : list A) (k : nat).

Lemma chooseFrom_zero l : chooseFrom l 0 = [[]].
Proof. by destruct l. Qed.

Lemma chooseFrom_short l k : (length l < k)%nat → chooseFrom l k = [].
Proof.
  revert k. induction l as [|x l IH]; intros [|k] Hlen; simpl in *; try done; try lia.
  rewrite !IH by lia. done.
Qed.

Lemma chooseFrom_length l k : length (chooseFrom l k) = binomial (length l) k.
Proof.
  revert k. induction l as [|x l IH]; intros [|k]; simpl; try done.
  by rewrite length_app, length_fmap, !IH.
Qed.

Lemma elem_of_chooseFrom l k c :
  c ∈ chooseFrom l k ↔ c `sublist_of` l ∧ length c = k.
Proof.
  split.
  - revert k c. induction l as [|x l IH]; intros [|k] c; simpl.
    + intros ->%list_elem_of_singleton. done.
    + by intros ?%elem_of_nil.
    + intros ->%list_elem_of_singleton. split; [apply sublist_nil_l|done].
    + rewrite elem_of_app, list_elem_of_fmap. intros [(c' & -> & Hc')|Hc].
      * apply IH in Hc' as [? <-]. split; [by constructor|done].
      * apply IH in Hc as [? ?]. split; [by constructor|done].
  - intros [Hsub <-]. induction Hsub as [|x c l Hsub IH|x c l Hsub IH]; simpl.
    + by apply list_elem_of_singleton.
    + apply elem_of_app. left. apply list_elem_of_fmap. by exists c.
    + destruct c as [|y c]; simpl in *.
      * by apply list_elem_of_singleton.
      * apply elem_of_app. by right.
Qed.

Lemma chooseFrom_NoDup l k : NoDup l → NoDup (chooseFrom l k).
Proof.
  intros Hl. revert k. induction Hl as [|x l Hx Hl IH]; intros [|k]; simpl.
  - apply NoDup_singleton.
  - constructor.
  - apply NoDup_singleton.
  - apply NoDup_app. split_and!.
    + apply (NoDup_fmap_2 _), IH.
    + intros c (c' & -> & _)%list_elem_of_fmap [Hsub _]%elem_of_chooseFrom.
      apply Hx. eapply elem_of_sublist; [|exact Hsub]. by left.
    + apply IH.
Qed.
End chooseFrom_facts.

(** The closure appends to [combos] the combinations of the cards from
    [start] on, each behind the cards already in [combo]. *)
Lemma generate_chooseFrom (cards : list Card) (k start : nat)
    (combo : list Card) (combos : list (list Card)) :
  generate cards k start combo combos =
  combos ++ (app combo <$> chooseFrom (drop start cards) k).
Proof.
  revert start combo combos. induction k as [|k IHk]; intros start combo combos.
  - simpl. rewrite ?chooseFrom_zero. simpl. by rewrite app_nil_r.
  - simpl generate.
    remember (length cards - start)%nat as m eqn:Hm.
    revert start Hm combos. induction m as [|m IHm]; intros start Hm combos.
    + replace (length cards + 1 - S (k + start))%nat with 0%nat by lia. simpl.
      rewrite drop_ge by lia. simpl. by rewrite app_nil_r.
    + destruct (lookup_lt_is_Some_2 cards start) as [x Hx]; [lia|].
      destruct (le_lt_dec (S k + start) (length cards)) as [Hfit|Hshort].
      * rewrite (drop_S _ _ _ Hx).
        replace (length cards + 1 - S (k + start))%nat
          with (S (length cards + 1 - S (k + S start)))%nat by lia.
        simpl. rewrite Hx, IHk, IHm by lia.
        rewrite fmap_app, <- list_fmap_compose, <- app_assoc.
        replace (start + 1)%nat with (S start) by lia.
        do 2 f_equal. apply list_fmap_ext. intros ? c _. simpl.
        by rewrite <- app_assoc.
      * replace (length cards + 1 - S (k + start))%nat with 0%nat by lia. simpl.
        rewrite chooseFrom_short; [by rewrite app_nil_r|].
        rewrite length_drop. lia.
Qed.

Lemma generateCombinations_chooseFrom (cards : list Card) (k : nat) :
  generateCombinations cards k = chooseFrom cards k.
Proof.
  unfold generateCombinations. rewrite generate_chooseFrom. simpl.
  apply list_fmap_id.
Qed.

(** The combinations, read as index lists, come in lexicographic order. *)
Lemma seq_increasing (start n : nat) : StronglySorted lt (seq start n).
Proof.
  revert start. induction n as [|n IH]; intros start; simpl; constructor; [done|].
  apply Forall_seq. lia.
Qed.

Lemma sublist_increasing (ixs l : list nat) :
  ixs `sublist_of` l → StronglySorted lt l → StronglySorted lt ixs.
Proof.
  induction 1 as [|x ixs l Hsub IH|x ixs l Hsub IH]; intros Hl; [done|..];
    apply StronglySorted_cons in Hl as [Hx Hl].
  - constructor; [by apply IH|].
    rewrite Forall_forall in Hx |- *. intros y Hy. apply Hx.
    by eapply elem_of_sublist.
  - by apply IH.
Qed.

Lemma chooseFrom_lexicographic (l : list nat) (k : nat) :
  StronglySorted lt l → StronglySorted lexLt (chooseFrom l k).
Proof.
  intros Hl. revert k. induction Hl as [|x l Hl IH Hx]; intros [|k]; simpl.
  - repeat constructor.
  - constructor.
  - repeat constructor.
  - apply StronglySorted_app. split_and!.
    + intros c1 c2 (c' & -> & _)%list_elem_of_fmap [Hsub Hlen]%elem_of_chooseFrom.
      destruct c2 as [|y c2]; [done|]. simpl. left.
      rewrite Forall_forall in Hx. apply Hx.
      eapply elem_of_sublist; [|exact Hsub]. by left.
    + eapply StronglySorted_fmap; [|apply IH]. intros c1 c2 Hc. simpl. by right.
    + apply IH.
Qed.

Lemma pick_cons (cards : list Card) (i : nat) (x : Card) (ixs : list nat) :
  cards !! i = Some x → pick cards (i :: ixs) = x :: pick cards ixs.
Proof. intros Hi. unfold pick. simpl. by rewrite Hi. Qed.

Lemma pick_chooseFrom (cards l : list Card) (start k : nat) :
  (∀ i x, l !! i = Some x → cards !! (start + i)%nat = Some x) →
  pick cards <$> chooseFrom (seq start (length l)) k = chooseFrom l k.
Proof.
  revert start k. induction l as [|x l IH]; intros start [|k] Hl; simpl; try done.
  rewrite fmap_app, <- list_fmap_compose.
  assert (∀ i y, l !! i = Some y → cards !! (S start + i)%nat = Some y) as Hl'.
  { intros i y Hi. specialize (Hl (S i) y Hi).
    by replace (S start + i)%nat with (start + S i)%nat by lia. }
  rewrite <- (IH (S start) k Hl'), <- (IH (S start) (S k) Hl').
  f_equal. rewrite <- list_fmap_compose. apply list_fmap_ext.
  intros ? ixs _. simpl. apply pick_cons.
  specialize (Hl 0%nat x eq_refl). by rewrite Nat.add_0_r in Hl.
Qed.

Lemma binomial_zero_r (n : nat) : binomial n 0 = 1%nat.
Proof. by destruct n. Qed.

Lemma binomial_short (n k : nat) : (n < k)%nat → binomial n k = 0%nat.
Proof.
  revert k. induction n as [|n IH]; intros [|k] Hk; simpl; try lia.
  rewrite !IH by lia. done.
Qed.

(** [binomial] is the binomial coefficient:
    C(n+k, k) * n! * k! = (n+k)!. *)
Lemma binomial_factorial (n k : nat) :
  (binomial (n + k) k * (fact n * fact k) = fact (n + k))%nat.
Proof.
  remember (n + k)%nat as s eqn:Hs. revert n k Hs.
  induction s as [|s IH]; intros n k Hs.
  - assert (n = 0%nat) as -> by lia. assert (k = 0%nat) as -> by lia. done.
  - destruct k as [|k].
    + rewrite binomial_zero_r. replace n with (S s) by lia. simpl fact at 2. lia.
    + destruct n as [|n].
      * assert (s = k) as -> by lia. clear Hs.
        specialize (IH 0%nat k eq_refl). simpl in IH |- *.
        rewrite (binomial_short k (S k)) by lia. nia.
      * simpl binomial.
        pose proof (IH (S n) k ltac:(lia)) as H1.
        pose proof (IH n (S k) ltac:(lia)) as H2.
        replace (S n + k)%nat with s in H1 by lia.
        replace (n + S k)%nat with s in H2 by lia.
        change (fact (S s)) with (S s * fact s)%nat.
        change (fact (S n)) with (S n * fact n)%nat in *.
        change (fact (S k)) with (S k * fact k)%nat in *.
        nia.
Qed.

(** C9. For distinct cards, at least five of them, the generator with
    [k = 5] returns C(n,5) combinations, no combination twice; the
    combinations are exactly the five-card subsequences of the input, so
    none is left out and each keeps the input's order and repeats no card;
    read as index lists they come in lexicographic order; seven cards give
    21 combinations. *)
Theorem generateCombinations_spec (cards : list Card) :
  NoDup cards → (5 <= length cards)%nat →
  length (generateCombinations cards 5) = binomial (length cards) 5 ∧
  (binomial (length cards) 5 * (fact (length cards - 5) * fact 5))%nat
    = fact (length cards) ∧
  NoDup (generateCombinations cards 5) ∧
  (∀ combo, combo ∈ generateCombinations cards 5 ↔
            combo `sublist_of` cards ∧ length combo = 5%nat) ∧
  (∀ combo, combo ∈ generateCombinations cards 5 → NoDup combo) ∧
  (∃ idxs : list (list nat),
     generateCombinations cards 5 = pick cards <$> idxs ∧
     StronglySorted lexLt idxs ∧
     Forall (fun ixs => StronglySorted lt ixs ∧
                        Forall (fun i => (i < length cards)%nat) ixs) idxs) ∧
  (length cards = 7%nat → length (generateCombinations cards 5) = 21%nat).
Proof.
  intros Hnodup Hlen. rewrite generateCombinations_chooseFrom. split_and!.
  - apply chooseFrom_length.
  - pose proof (binomial_factorial (length cards - 5) 5) as Hb.
    by replace (length cards - 5 + 5)%nat with (length cards) in Hb by lia.
  - by apply chooseFrom_NoDup.
  - intros combo. apply elem_of_chooseFrom.
  - intros combo [Hsub _]%elem_of_chooseFrom. by eapply sublist_NoDup.
  - exists (chooseFrom (seq 0 (length cards)) 5). split_and!.
    + symmetry. apply pick_chooseFrom. by intros i x.
    + apply chooseFrom_lexicographic, seq_increasing.
    + apply Forall_forall. intros ixs [Hsub _]%elem_of_chooseFrom. split.
      * eapply sublist_increasing; [exact Hsub|apply seq_increasing].
      * apply Forall_forall. intros i Hi.
        eapply elem_of_sublist in Hi; [|exact Hsub].
        apply elem_of_seq in Hi. lia.
  - intros Hseven. by rewrite chooseFrom_length, Hseven.
Qed.

Lemma generateCombinations_spec_witness :
  length (generateCombinations
            [spade 1; heart 2; club 3; diamond 4; spade 5; heart 6; club 7] 5)
    = 21%nat.
Proof.
  apply (generateCombinations_spec
           [spade 1; heart 2; club 3; diamond 4; spade 5; heart 6; club 7]).
  - apply (bool_decide_unpack _). vm_compute. exact I.
  - simpl. lia.
  - reflexivity.
Defined.

(** * The best hand *)

(** What the classifier puts into [Cards] and, for high card, into
    [HighCards]. *)
Lemma evaluateHand_cards (hand : list Card) (r : HandResult) :
  evaluateHand hand = Ok r →
  Cards r = insertionSort lessCard hand ∧
  (Rank r = HighCard → HighCards r = getHighCards (insertionSort lessCard hand) 5).
Proof.
  unfold evaluateHand. generalize (insertionSort lessCard hand) as sortedHand.
  intros sortedHand.
  destruct (checkFlush sortedHand) as [isFlush| |]; simpl; [|done..].
  destruct (checkStraight sortedHand) as [[isStraight highCard]| |]; simpl; [|done..].
  destruct (index sortedHand 0) as [c0| |]; simpl;
    repeat case_match; intros [= <-]; done.
Qed.

(** The descending arrangement of a key is at least the key itself. *)
Lemma descending_beats_any_order (s l : list Z) :
  descending s → s ≡ₚ l → key_values l → compareHighCards s l >= 0.
Proof.
  intros Hs. revert l. induction Hs as [|a s Hs IH Ha]; intros l Hp Hl.
  - by apply Permutation_nil in Hp as ->.
  - destruct l as [|b l]; [by apply Permutation_nil_r in Hp|].
    assert (key_values (a :: s)) as Has by (by rewrite Hp).
    apply Forall_cons in Has as [Hka Hks]. apply Forall_cons in Hl as [Hkb Hkl].
    rewrite compareHighCards_cons by done.
    destruct (a =? b) eqn:Hab.
    + apply Z.eqb_eq in Hab as ->. apply IH; [|done].
      by apply Permutation_cons_inv in Hp.
    + assert (b ∈ a :: s) as Hb by (rewrite Hp; by left).
      apply elem_of_cons in Hb as [->|Hb]; [lia|].
      rewrite Forall_forall in Ha. specialize (Ha _ Hb). lia.
Qed.

(** The hand the search starts from is not above the classification of
    the first combination. *)
Lemma evaluateHand_beats_start (combo : list Card) (r : HandResult) (name : string) :
  length combo = 5%nat → Forall validCard combo → evaluateHand combo = Ok r →
  CompareHands r (mkHandResult HighCard name combo (getHighCards combo 5)) >= 0.
Proof.
  intros Hlen Hvalid Hr. apply CompareHands_ge. simpl.
  destruct (decide (Rank r = HighCard)) as [Hhigh|Hother].
  - right. split; [done|].
    apply evaluateHand_cards in Hr as [_ Hkey]. rewrite (Hkey Hhigh).
    rewrite !getHighCards_take, !firstn_all2
      by (rewrite length_map, ?insertionSort_length; lia).
    rewrite sortedHand_values.
    apply descending_beats_any_order;
      [apply sortInts_descending | apply insertionSort_Permutation | by apply valid_values].
  - left. destruct (Rank r); simpl; done || lia.
Qed.

Lemma bestOf_spec (combinations : list (list Card)) (start : HandResult) :
  wellFormed start →
  Forall (fun combo => length combo = 5%nat ∧ Forall validCard combo) combinations →
  ∃ best,
    bestOf combinations start = Ok best ∧ wellFormed best ∧
    CompareHands best start >= 0 ∧
    (∀ combo, combo ∈ combinations →
       ∃ r, evaluateHand combo = Ok r ∧ CompareHands best r >= 0) ∧
    (best = start ∨
     ∃ combo, combo ∈ combinations ∧ evaluateHand combo = Ok best).
Proof.
  intros Hstart Hall. revert start Hstart.
  induction Hall as [|combo rest [Hlen Hvalid] Hall IH]; intros start Hstart; simpl.
  - exists start. split_and!; [done|done| |by intros ? ?%elem_of_nil|by left].
    rewrite CompareHands_refl. lia.
  - destruct (evaluateHand_returns combo) as [r Hr]; [lia|].
    pose proof (evaluateHand_wellFormed _ _ Hlen Hvalid Hr) as Hwf.
    rewrite Hr. simpl.
    set (next := if CompareHands r start >? 0 then r else start).
    assert (wellFormed next) as Hnext by (subst next; by case_match).
    assert (CompareHands next start >= 0) as Hns.
    { subst next. case_match; [lia|]. rewrite CompareHands_refl. lia. }
    assert (CompareHands next r >= 0) as Hnr.
    { subst next. case_match; [rewrite CompareHands_refl; lia|].
      rewrite (CompareHands_flip r start) by done. lia. }
    destruct (IH next Hnext) as (best & Hbest & Hbwf & Hbn & Hball & Hbeq).
    exists best. split_and!; [done|done|..].
    + by apply (CompareHands_trans _ next).
    + intros combo' [->|Hin]%elem_of_cons; [|by apply Hball].
      exists r. split; [done|]. by apply (CompareHands_trans _ next).
    + destruct Hbeq as [->|(combo' & Hin & Hc)].
      * subst next. case_match; [|by left].
        right. exists combo. split; [by left|done].
      * right. exists combo'. split; [by right|done].
Qed.

(** C3. On valid cards: fewer than five cards yield the error and no
    hand; five or more yield a hand that compares greater than or equal to
    the classification of every five-card combination of the input and
    equal to that of at least one, with which it shares rank and key. *)
Theorem EvaluateBestHand_spec (cards : list Card) :
  Forall validCard cards →
  ((length cards < 5)%nat →
     EvaluateBestHand cards = Err "not enough cards to evaluate hand") ∧
  ((5 <= length cards)%nat →
     ∃ best,
       EvaluateBestHand cards = Ok best ∧
       (∀ combo, combo `sublist_of` cards → length combo = 5%nat →
          ∃ r, evaluateHand combo = Ok r ∧ CompareHands best r >= 0) ∧
       (∃ combo r,
          combo `sublist_of` cards ∧ length combo = 5%nat ∧
          evaluateHand combo = Ok r ∧ CompareHands best r = 0 ∧
          Rank best = Rank r ∧ HighCards best = HighCards r)).
Proof.
  intros Hvalid. unfold EvaluateBestHand. split.
  - intros Hshort. by rewrite (proj2 (Nat.ltb_lt _ _) Hshort).
  - intros Hlen. rewrite (proj2 (Nat.ltb_ge _ _) Hlen).
    rewrite generateCombinations_chooseFrom.
    assert (Forall (fun combo => length combo = 5%nat ∧ Forall validCard combo)
              (chooseFrom cards 5)) as Hall.
    { apply Forall_forall. intros combo [Hsub Hc]%elem_of_chooseFrom.
      split; [done|]. apply Forall_forall. intros x Hx.
      rewrite Forall_forall in Hvalid. apply Hvalid. by eapply elem_of_sublist. }
    assert (take 5 cards ∈ chooseFrom cards 5) as Hfirst.
    { apply elem_of_chooseFrom. split; [apply sublist_take|].
      rewrite length_take. lia. }
    destruct (chooseFrom cards 5) as [|c0 rest] eqn:Hcombos;
      [by apply elem_of_nil in Hfirst|].
    change (index (c0 :: rest) 0) with (Ok c0). simpl mbind.
    pose proof Hall as [[Hc0len Hc0valid] _]%Forall_cons.
    set (start := mkHandResult HighCard "High Card" c0 (getHighCards c0 5)).
    assert (wellFormed start) as Hstart.
    { unfold wellFormed. simpl.
      apply (highCards_wellFormed c0 5); [lia | by apply valid_values]. }
    destruct (bestOf_spec (c0 :: rest) start Hstart Hall)
      as (best & Hbest & Hbwf & Hbs & Hball & Hbeq).
    exists best. split_and!; [done|..].
    + intros combo Hsub Hc. apply Hball. rewrite <- Hcombos.
      by apply elem_of_chooseFrom.
    + assert (∃ combo r, combo ∈ c0 :: rest ∧ evaluateHand combo = Ok r ∧
                         wellFormed r ∧ CompareHands best r = 0)
        as (combo & r & Hin & Hr & Hrwf & Hzero).
      { destruct Hbeq as [->|(combo & Hin & Hc)].
        - destruct (Hball c0) as (r0 & Hr0 & Hge); [by left|].
          exists c0, r0.
          pose proof (evaluateHand_wellFormed _ _ Hc0len Hc0valid Hr0) as Hwf0.
          split_and!; [by left|done|done|].
          pose proof (evaluateHand_beats_start c0 r0 "High Card" Hc0len Hc0valid Hr0)
            as Hle.
          fold start in Hle. rewrite (CompareHands_flip start r0) in Hle by done.
          lia.
        - exists combo, best. split_and!; [done|done|done|apply CompareHands_refl]. }
      exists combo, r. rewrite <- Hcombos in Hin.
      apply elem_of_chooseFrom in Hin as [Hsub Hc].
      split_and!; try done.
      * rewrite CompareHands_plain in Hzero.
        destruct (decide (Rank best = Rank r)) as [?|Hne]; [done|].
        rewrite bool_decide_eq_false_2 in Hzero by done.
        assert (rankInt (Rank best) = rankInt (Rank r)) as ?%rankInt_inj by lia.
        done.
      * rewrite CompareHands_plain in Hzero.
        destruct (decide (Rank best = Rank r)) as [Heq|Hne].
        -- rewrite bool_decide_eq_true_2 in Hzero by done.
           destruct Hbwf as [Lb Kb], Hrwf as [Lr Kr].
           apply compareHighCards_zero; congruence.
        -- rewrite bool_decide_eq_false_2 in Hzero by done.
           assert (rankInt (Rank best) = rankInt (Rank r)) as ?%rankInt_inj by lia.
           done.
Qed.

Lemma EvaluateBestHand_spec_witness :
  EvaluateBestHand [spade 4; heart 4; club 9] =
    Err "not enough cards to evaluate hand" ∧
  ∃ best,
    EvaluateBestHand
      [spade 4; heart 4; club 9; club 12; diamond 1; spade 7; heart 2] = Ok best.
Proof.
  split.
  - apply (proj1 (EvaluateBestHand_spec [spade 4; heart 4; club 9]
                    ltac:(repeat constructor))).
    simpl. lia.
  - destruct (proj2 (EvaluateBestHand_spec
                [spade 4; heart 4; club 9; club 12; diamond 1; spade 7; heart 2]
                ltac:(repeat constructor)))
      as (best & Hbest & _); [simpl; lia|].
    by exists best.
Defined.

(** * Invariance under reordering *)

(** The sort is stable: it leaves the cards of each value in input order. *)
Lemma sink_stable (v : Z) (x : Card) (left : list Card) :
  List.filter (fun c => getComparisonValue c =? v) (sink lessCard x left) =
  List.filter (fun c => getComparisonValue c =? v) (x :: left).
Proof.
  induction left as [|y left IH]; [done|].
  simpl sink. unfold lessCard at 1.
  destruct (getComparisonValue x >? getComparisonValue y) eqn:Hless; [|done].
  simpl in IH |- *. rewrite IH.
  destruct (getComparisonValue x =? v) eqn:Hx, (getComparisonValue y =? v) eqn:Hy;
    try done.
  lia.
Qed.

Lemma passes_stable (v : Z) (data left : list Card) :
  List.filter (fun c => getComparisonValue c =? v)
    (fold_left (fun left x => sink lessCard x left) data left) =
  rev (List.filter (fun c => getComparisonValue c =? v) data) ++
  List.filter (fun c => getComparisonValue c =? v) left.
Proof.
  revert left. induction data as [|x data IH]; intros left; [done|].
  simpl fold_left. rewrite IH, sink_stable. simpl.
  destruct (getComparisonValue x =? v); simpl; [|done].
  by rewrite <- app_assoc.
Qed.

Lemma insertionSort_stable (v : Z) (hand : list Card) :
  List.filter (fun c => getComparisonValue c =? v) (insertionSort lessCard hand) =
  List.filter (fun c => getComparisonValue c =? v) hand.
Proof.
  unfold insertionSort. rewrite List.filter_rev, passes_stable. simpl.
  by rewrite app_nil_r, rev_involutive.
Qed.

(** Two orderings of one hand: the classifier stops on both or returns on
    both, and then with the same rank, name, key and value sequence. *)
Lemma evaluateHand_Permutation (h1 h2 : list Card) :
  h1 ≡ₚ h2 →
  match evaluateHand h1, evaluateHand h2 with
  | Ok r1, Ok r2 => sameClassification r1 r2
  | Ok _, _ | _, Ok _ => False
  | _, _ => True
  end.
Proof.
  intros Hp. unfold evaluateHand.
  set (s1 := insertionSort lessCard h1). set (s2 := insertionSort lessCard h2).
  assert (s1 ≡ₚ s2) as Hperm.
  { subst s1 s2. by rewrite !insertionSort_Permutation. }
  assert (map getComparisonValue s2 = map getComparisonValue s1) as Hvals.
  { subst s1 s2. rewrite !sortedHand_values.
    apply sortInts_unique; [|apply sortInts_descending].
    rewrite insertionSort_Permutation. by apply Permutation_map. }
  assert (checkFlush s2 = checkFlush s1) as ->.
  { by apply checkFlush_Permutation. }
  assert (checkStraight s2 = checkStraight s1) as ->.
  { unfold checkStraight. by rewrite Hvals. }
  assert (countValues s2 = countValues s1) as ->.
  { by rewrite !countValues_values, Hvals. }
  assert (∀ count, getHighCards s2 count = getHighCards s1 count) as Hkey.
  { intros count. by rewrite !getHighCards_take, Hvals. }
  rewrite !Hkey.
  assert (match index s1 0, index s2 0 with
          | Ok c1, Ok c2 => getComparisonValue c1 = getComparisonValue c2
          | Ok _, _ | _, Ok _ => False
          | _, _ => True
          end) as Hhead.
  { destruct s1 as [|c1 ?], s2 as [|c2 ?]; simpl in Hvals |- *; try done.
    by injection Hvals. }
  clearbody s1 s2.
  destruct (checkFlush s1) as [isFlush| |]; simpl; [|done..].
  destruct (checkStraight s1) as [[isStraight highCard]| |]; simpl; [|done..].
  destruct (index s1 0) as [c1| |], (index s2 0) as [c2| |]; simpl; try done;
    repeat (match goal with
            | |- context [if ?cond then _ else _] => destruct cond
            end; simpl);
    unfold sameClassification; simpl; rewrite ?Hhead; done.
Qed.

(** C7 (amended).  Two orderings of the same five cards are classified
    with the same rank, the same name, the same key and the same sequence
    of comparison values; the two card sequences hold the same cards, each
    sorted by descending value with the cards of equal value in the order
    of its own input. *)
Theorem evaluateHand_permutation_invariant (h1 h2 : list Card) :
  length h1 = 5%nat → h1 ≡ₚ h2 →
  ∃ r1 r2,
    evaluateHand h1 = Ok r1 ∧ evaluateHand h2 = Ok r2 ∧
    Rank r1 = Rank r2 ∧ Name r1 = Name r2 ∧ HighCards r1 = HighCards r2 ∧
    map getComparisonValue (Cards r1) = map getComparisonValue (Cards r2) ∧
    Cards r1 ≡ₚ Cards r2 ∧
    descending (map getComparisonValue (Cards r1)) ∧
    (∀ v, List.filter (fun c => getComparisonValue c =? v) (Cards r1) =
          List.filter (fun c => getComparisonValue c =? v) h1) ∧
    (∀ v, List.filter (fun c => getComparisonValue c =? v) (Cards r2) =
          List.filter (fun c => getComparisonValue c =? v) h2).
Proof.
  intros Hlen Hp.
  destruct (evaluateHand_returns h1) as [r1 Hr1]; [lia|].
  destruct (evaluateHand_returns h2) as [r2 Hr2]; [rewrite <- Hp; lia|].
  pose proof (evaluateHand_Permutation h1 h2 Hp) as Hsame.
  rewrite Hr1, Hr2 in Hsame. destruct Hsame as (? & ? & ? & ? & ?).
  apply evaluateHand_cards in Hr1 as Hc1. destruct Hc1 as [Hc1 _].
  apply evaluateHand_cards in Hr2 as Hc2. destruct Hc2 as [Hc2 _].
  exists r1, r2. split_and!; try done.
  - rewrite Hc1, sortedHand_values. apply sortInts_descending.
  - intros v. rewrite Hc1. apply insertionSort_stable.
  - intros v. rewrite Hc2. apply insertionSort_stable.
Qed.

Lemma evaluateHand_permutation_invariant_witness :
  ∃ r1 r2,
    evaluateHand [heart 2; diamond 2; spade 3; spade 4; spade 6] = Ok r1 ∧
    evaluateHand [diamond 2; heart 2; spade 3; spade 4; spade 6] = Ok r2 ∧
    Rank r1 = Rank r2 ∧ Name r1 = Name r2 ∧ HighCards r1 = HighCards r2.
Proof.
  destruct (evaluateHand_permutation_invariant
              [heart 2; diamond 2; spade 3; spade 4; spade 6]
              [diamond 2; heart 2; spade 3; spade 4; spade 6]
              eq_refl ltac:(apply perm_swap))
    as (r1 & r2 & H1 & H2 & Hrank & Hname & Hkey & _).
  by exists r1, r2.
Defined.

(** C7, counterexample.  The two orderings 2♥ 2♦ 3♠ 4♠ 6♠ and
    2♦ 2♥ 3♠ 4♠ 6♠ of one hand are classified with different card
    sequences: each keeps its two twos in input order. *)
Lemma evaluateHand_cards_depend_on_order :
  [heart 2; diamond 2; spade 3; spade 4; spade 6] ≡ₚ
  [diamond 2; heart 2; spade 3; spade 4; spade 6] ∧
  evaluateHand [heart 2; diamond 2; spade 3; spade 4; spade 6] =
    Ok (mkHandResult Pair "Pair"
          [spade 6; spade 4; spade 3; heart 2; diamond 2] [6; 4; 3; 2]) ∧
  evaluateHand [diamond 2; heart 2; spade 3; spade 4; spade 6] =
    Ok (mkHandResult Pair "Pair"
          [spade 6; spade 4; spade 3; diamond 2; heart 2] [6; 4; 3; 2]) ∧
  evaluateHand [heart 2; diamond 2; spade 3; spade 4; spade 6] ≠
  evaluateHand [diamond 2; heart 2; spade 3; spade 4; spade 6].
Proof.
  split_and!; [apply perm_swap | vm_compute; reflexivity.. | vm_compute; discriminate].
Qed.

(** * Winner resolution *)









(** * The keys of four of a kind and full house *)

Lemma occurrences_bounds (v : Z) (values : list Z) :
  0 <= occurrences v values <= Z.of_nat (length values).
Proof. induction values as [|x values IH]; simpl; [lia|]. case_match; lia. Qed.

(** The map built by [countValues] holds, for each value, the number of its
    occurrences. *)
Lemma counting_lookup (values : list Z) (counts : gmap Z Z) (v : Z) :
  (length values < 1000)%nat →
  (∀ n, counts !! v = Some n → 0 < n ∧ n + Z.of_nat (length values) < 1000) →
  fold_left (fun counts v => <[v := goint.add (default 0 (counts !! v)) 1]> counts)
    values counts !! v =
  if occurrences v values =? 0 then counts !! v
  else Some (default 0 (counts !! v) + occurrences v values).
Proof.
  revert counts. induction values as [|x values IH]; intros counts Hlen Hc; [done|].
  simpl in Hlen. simpl fold_left. simpl occurrences.
  pose proof (occurrences_bounds v values) as Hocc.
  assert (0 <= default 0 (counts !! v) ∧
          default 0 (counts !! v) + Z.of_nat (S (length values)) < 1000) as Hd.
  { destruct (counts !! v) as [n|] eqn:Hn; simpl; [|lia].
    specialize (Hc n eq_refl). simpl in Hc. lia. }
  destruct (x =? v) eqn:Hx.
  - apply Z.eqb_eq in Hx as ->.
    rewrite IH; [|lia|].
    + rewrite lookup_insert_eq. simpl.
      rewrite incr_small by lia.
      destruct (occurrences v values =? 0) eqn:Hz.
      * replace (1 + occurrences v values =? 0) with false by lia.
        f_equal. lia.
      * replace (1 + occurrences v values =? 0) with false by lia.
        f_equal. lia.
    + intros n. rewrite lookup_insert_eq. intros [= <-].
      rewrite incr_small by lia. lia.
  - apply Z.eqb_neq in Hx.
    rewrite IH; [|lia|].
    + by rewrite lookup_insert_ne.
    + intros n. rewrite lookup_insert_ne by done. intros Hn.
      specialize (Hc n Hn). simpl in Hc. lia.
Qed.

Lemma occurrences_Permutation (v : Z) (l1 l2 : list Z) :
  l1 ≡ₚ l2 → occurrences v l1 = occurrences v l2.
Proof. induction 1; simpl; lia. Qed.

Lemma countValues_lookup (hand : list Card) (v : Z) :
  (length hand < 1000)%nat →
  countValues hand !! v =
    if occurrences v (map getComparisonValue hand) =? 0 then None
    else Some (occurrences v (map getComparisonValue hand)).
Proof.
  intros Hlen. rewrite countValues_values, counting_lookup.
  - by rewrite lookup_empty.
  - by rewrite length_map.
  - intros n. by rewrite lookup_empty.
Qed.

(** A count is met by the loops over the map exactly when some value
    occurs that often. *)
Lemma rangeCounts_occurrences (hand : list Card) (n : Z) :
  (length hand < 1000)%nat → n ≠ 0 →
  n ∈ rangeCounts (countValues hand) ↔
  ∃ v, occurrences v (map getComparisonValue hand) = n.
Proof.
  intros Hlen Hn. unfold rangeCounts. rewrite list_elem_of_fmap. split.
  - intros ([v n'] & -> & Hin). apply elem_of_map_to_list in Hin.
    rewrite countValues_lookup in Hin by done. exists v.
    destruct (_ =? 0); [done|]. by injection Hin.
  - intros [v Hv]. exists (v, n). split; [done|].
    apply elem_of_map_to_list. rewrite countValues_lookup by done.
    rewrite Hv. by replace (n =? 0) with false by lia.
Qed.

Lemma anyCount_elem_of (n : Z) (cs : list Z) : anyCount n cs = true ↔ n ∈ cs.
Proof.
  induction cs as [|count cs IH]; simpl.
  - split; [done|by intros ?%elem_of_nil].
  - rewrite elem_of_cons. destruct (count =? n) eqn:Hc.
    + split; [intros _; left; lia|done].
    + rewrite IH. split; [by right|]. intros [?|?]; [lia|done].
Qed.

Lemma fullHouse_loop (cs : list Z) (hasThree hasTwo : bool) :
  fold_left
    (fun '(hasThree, hasTwo) count =>
       if count =? 3 then (true, hasTwo)
       else if count =? 2 then (hasThree, true)
       else (hasThree, hasTwo))
    cs (hasThree, hasTwo) =
  (hasThree || anyCount 3 cs, hasTwo || anyCount 2 cs).
Proof.
  revert hasThree hasTwo. induction cs as [|count cs IH]; intros hasThree hasTwo; simpl.
  - by rewrite !orb_false_r.
  - destruct (count =? 3) eqn:H3; [|destruct (count =? 2) eqn:H2]; rewrite IH.
    + replace (count =? 2) with false by lia. by rewrite orb_true_r.
    + by rewrite orb_true_r.
    + done.
Qed.

Lemma hasFullHouse_occurrences (hand : list Card) :
  (length hand < 1000)%nat →
  hasFullHouse (countValues hand) = true →
  ∃ triple pair,
    occurrences triple (map getComparisonValue hand) = 3 ∧
    occurrences pair (map getComparisonValue hand) = 2.
Proof.
  intros Hlen. unfold hasFullHouse. rewrite fullHouse_loop. simpl.
  intros [H3 H2]%andb_prop.
  apply anyCount_elem_of, rangeCounts_occurrences in H3 as [triple ?]; [|done..].
  apply anyCount_elem_of, rangeCounts_occurrences in H2 as [pair ?]; [|done..].
  by exists triple, pair.
Qed.

Lemma hasFourOfAKind_occurrences (hand : list Card) :
  (length hand < 1000)%nat →
  hasFourOfAKind (countValues hand) = true →
  ∃ quad, occurrences quad (map getComparisonValue hand) = 4.
Proof.
  intros Hlen. unfold hasFourOfAKind.
  intros H4. by apply anyCount_elem_of, rangeCounts_occurrences in H4.
Qed.

(** The branch of the classifier a full house or four of a kind comes
    from. *)
Lemma evaluateHand_pairlike (hand : list Card) (r : HandResult) :
  evaluateHand hand = Ok r →
  (Rank r = FullHouse →
     hasFullHouse (countValues (insertionSort lessCard hand)) = true ∧
     HighCards r = getHighCards (insertionSort lessCard hand) 2) ∧
  (Rank r = FourOfAKind →
     hasFourOfAKind (countValues (insertionSort lessCard hand)) = true ∧
     HighCards r = getHighCards (insertionSort lessCard hand) 2).
Proof.
  unfold evaluateHand. generalize (insertionSort lessCard hand) as sortedHand.
  intros sortedHand.
  destruct (checkFlush sortedHand) as [isFlush| |]; simpl; [|done..].
  destruct (checkStraight sortedHand) as [[isStraight highCard]| |]; simpl; [|done..].
  destruct (index sortedHand 0) as [c0| |]; simpl;
    repeat (match goal with
            | |- context [if ?cond then _ else _] => destruct cond eqn:?
            end; simpl);
    intros [= <-]; done.
Qed.

(** The five sorted values of a hand, whatever its cards. *)
Lemma sorted_five (hand : list Card) :
  length hand = 5%nat →
  ∃ a b c d e,
    map getComparisonValue (insertionSort lessCard hand) = [a; b; c; d; e] ∧
    a >= b ∧ b >= c ∧ c >= d ∧ d >= e.
Proof.
  intros Hlen. rewrite sortedHand_values.
  pose proof (sortInts_descending (map getComparisonValue hand)) as Hdesc.
  pose proof (insertionSort_length lessIntReverse (map getComparisonValue hand)) as Hl.
  rewrite length_map, Hlen in Hl.
  destruct (insertionSort _ _) as [|a [|b [|c [|d [|e [|? ?]]]]]]; try done.
  exists a, b, c, d, e. split; [done|].
  unfold descending in Hdesc.
  repeat (apply StronglySorted_cons in Hdesc as [?%Forall_cons_1 Hdesc]).
  intuition lia.
Qed.

Lemma fullHouse_key (hand : list Card) (r : HandResult) :
  length hand = 5%nat → evaluateHand hand = Ok r → Rank r = FullHouse →
  ∃ triple pair,
    occurrences triple (map getComparisonValue hand) = 3 ∧
    occurrences pair (map getComparisonValue hand) = 2 ∧
    HighCards r = [Z.max triple pair; Z.max triple pair].
Proof.
  intros Hlen Hr Hrank.
  destruct (evaluateHand_pairlike hand r Hr) as [Hfull _].
  destruct (Hfull Hrank) as [Hcounts ->]. clear Hfull.
  apply hasFullHouse_occurrences in Hcounts as (triple & pair & H3 & H2);
    [|rewrite insertionSort_length; lia].
  destruct (sorted_five hand Hlen) as (a & b & c & d & e & Hvs & Hab & Hbc & Hcd & Hde).
  exists triple, pair.
  assert (∀ v, occurrences v (map getComparisonValue hand) =
               occurrences v (map getComparisonValue (insertionSort lessCard hand)))
    as Hocc.
  { intros v. apply occurrences_Permutation, Permutation_map.
    symmetry. apply insertionSort_Permutation. }
  rewrite !Hocc. split_and!; [done..|].
  rewrite getHighCards_take, Hvs. rewrite Hvs in H3, H2. simpl in H3, H2 |- *.
  assert (a = Z.max triple pair ∧ b = Z.max triple pair) as [-> ->]; [|done].
  clear -H3 H2 Hab Hbc Hcd Hde.
  destruct (a =? triple) eqn:?, (b =? triple) eqn:?, (c =? triple) eqn:?,
    (d =? triple) eqn:?, (e =? triple) eqn:?; try lia;
  destruct (a =? pair) eqn:?, (b =? pair) eqn:?, (c =? pair) eqn:?,
    (d =? pair) eqn:?, (e =? pair) eqn:?; lia.
Qed.

Lemma fourOfAKind_key (hand : list Card) (r : HandResult) :
  length hand = 5%nat → evaluateHand hand = Ok r → Rank r = FourOfAKind →
  ∃ quad kicker,
    occurrences quad (map getComparisonValue hand) = 4 ∧
    occurrences kicker (map getComparisonValue hand) = 1 ∧
    HighCards r = [Z.max quad kicker; quad].
Proof.
  intros Hlen Hr Hrank.
  destruct (evaluateHand_pairlike hand r Hr) as [_ Hfour].
  destruct (Hfour Hrank) as [Hcounts ->]. clear Hfour.
  apply hasFourOfAKind_occurrences in Hcounts as (quad & H4);
    [|rewrite insertionSort_length; lia].
  destruct (sorted_five hand Hlen) as (a & b & c & d & e & Hvs & Hab & Hbc & Hcd & Hde).
  exists quad.
  assert (∀ v, occurrences v (map getComparisonValue hand) =
               occurrences v (map getComparisonValue (insertionSort lessCard hand)))
    as Hocc.
  { intros v. apply occurrences_Permutation, Permutation_map.
    symmetry. apply insertionSort_Permutation. }
  setoid_rewrite Hocc.
  rewrite getHighCards_take, Hvs. rewrite Hvs in H4. simpl in H4 |- *.
  destruct (a =? quad) eqn:Ha, (b =? quad) eqn:Hb, (c =? quad) eqn:Hc,
    (d =? quad) eqn:Hd, (e =? quad) eqn:He; try lia.
  - exists e. split_and!; [done| |].
    + rewrite Z.eqb_refl.
      replace (a =? e) with false by lia. replace (b =? e) with false by lia.
      replace (c =? e) with false by lia. replace (d =? e) with false by lia. done.
    + repeat f_equal; lia.
  - exists a. split_and!; [done| |].
    + rewrite Z.eqb_refl.
      replace (b =? a) with false by lia. replace (c =? a) with false by lia.
      replace (d =? a) with false by lia. replace (e =? a) with false by lia. done.
    + repeat f_equal; lia.
Qed.

(** C1. A hand classified FullHouse gets the key [top; top], where [top]
    is the larger of the triple's and the pair's value: [getHighCards
    sortedHand 2] reads the first two cards of the hand sorted by
    descending value, and these are equal.  On {2♥,2♦,2♣,5♠,5♥} the key
    is [5; 5], not [2; 5].  Three fives over two twos get the same key, so
    the two hands compare equal; and twos over fives compare above fours
    over threes, whose key is [4; 4]. *)
Theorem evaluateHand_fullHouse_key :
  let twosOverFives := mkHandResult FullHouse "Full House"
                         [spade 5; heart 5; heart 2; diamond 2; club 2] [5; 5] in
  let fivesOverTwos := mkHandResult FullHouse "Full House"
                         [heart 5; diamond 5; club 5; spade 2; heart 2] [5; 5] in
  let foursOverThrees := mkHandResult FullHouse "Full House"
                           [heart 4; diamond 4; club 4; spade 3; heart 3] [4; 4] in
  (∀ hand r,
     length hand = 5%nat → evaluateHand hand = Ok r → Rank r = FullHouse →
     ∃ triple pair,
       occurrences triple (map getComparisonValue hand) = 3 ∧
       occurrences pair (map getComparisonValue hand) = 2 ∧
       HighCards r = [Z.max triple pair; Z.max triple pair]) ∧
  evaluateHand [heart 2; diamond 2; club 2; spade 5; heart 5] = Ok twosOverFives ∧
  evaluateHand [heart 5; diamond 5; club 5; spade 2; heart 2] = Ok fivesOverTwos ∧
  evaluateHand [heart 4; diamond 4; club 4; spade 3; heart 3] = Ok foursOverThrees ∧
  CompareHands twosOverFives fivesOverTwos = 0 ∧
  CompareHands twosOverFives foursOverThrees > 0.
Proof.
  split; [exact fullHouse_key|]. repeat split; vm_compute; reflexivity.
Qed.

Lemma evaluateHand_fullHouse_key_witness :
  ∃ triple pair,
    occurrences triple
      (map getComparisonValue [heart 2; diamond 2; club 2; spade 5; heart 5]) = 3 ∧
    occurrences pair
      (map getComparisonValue [heart 2; diamond 2; club 2; spade 5; heart 5]) = 2 ∧
    [5; 5] = [Z.max triple pair; Z.max triple pair].
Proof.
  apply (proj1 evaluateHand_fullHouse_key
           [heart 2; diamond 2; club 2; spade 5; heart 5]
           (mkHandResult FullHouse "Full House"
              [spade 5; heart 5; heart 2; diamond 2; club 2] [5; 5])).
  - reflexivity.
  - vm_compute. reflexivity.
  - reflexivity.
Defined.

(** C2. A hand classified FourOfAKind gets the key [top; quad], where
    [top] is the larger of the quad's value and the kicker: the kicker
    comes first when it is the higher card and does not occur otherwise.
    On four nines with a king the key is [13; 9], with a five [9; 9].  The
    best hand of the seven cards 9♠ 9♥ 9♦ 9♣ K♠ 5♥ 2♦ therefore carries
    the key [13; 9], and that of 9♠ 9♥ 9♦ 9♣ 5♥ 3♠ 2♦ the key [9; 9].
    Four nines with a king compare above four queens with a two, whose key
    is [12; 12]. *)
Theorem evaluateHand_fourOfAKind_key :
  let ninesKing := mkHandResult FourOfAKind "Four of a Kind"
                     [spade 13; spade 9; heart 9; diamond 9; club 9] [13; 9] in
  let ninesFive := mkHandResult FourOfAKind "Four of a Kind"
                     [spade 9; heart 9; diamond 9; club 9; heart 5] [9; 9] in
  let queensTwo := mkHandResult FourOfAKind "Four of a Kind"
                     [spade 12; heart 12; diamond 12; club 12; heart 2] [12; 12] in
  (∀ hand r,
     length hand = 5%nat → evaluateHand hand = Ok r → Rank r = FourOfAKind →
     ∃ quad kicker,
       occurrences quad (map getComparisonValue hand) = 4 ∧
       occurrences kicker (map getComparisonValue hand) = 1 ∧
       HighCards r = [Z.max quad kicker; quad]) ∧
  evaluateHand [spade 9; heart 9; diamond 9; club 9; spade 13] = Ok ninesKing ∧
  evaluateHand [spade 9; heart 9; diamond 9; club 9; heart 5] = Ok ninesFive ∧
  evaluateHand [spade 12; heart 12; diamond 12; club 12; heart 2] = Ok queensTwo ∧
  EvaluateBestHand
    [spade 9; heart 9; diamond 9; club 9; spade 13; heart 5; diamond 2] =
    Ok ninesKing ∧
  EvaluateBestHand
    [spade 9; heart 9; diamond 9; club 9; heart 5; spade 3; diamond 2] =
    Ok ninesFive ∧
  CompareHands ninesKing queensTwo > 0.
Proof.
  split; [exact fourOfAKind_key|]. repeat split; vm_compute; reflexivity.
Qed.

Lemma evaluateHand_fourOfAKind_key_witness :
  ∃ quad kicker,
    occurrences quad
      (map getComparisonValue [spade 9; heart 9; diamond 9; club 9; spade 13]) = 4 ∧
    occurrences kicker
      (map getComparisonValue [spade 9; heart 9; diamond 9; club 9; spade 13]) = 1 ∧
    [13; 9] = [Z.max quad kicker; quad].
Proof.
  apply (proj1 evaluateHand_fourOfAKind_key
           [spade 9; heart 9; diamond 9; club 9; spade 13]
           (mkHandResult FourOfAKind "Four of a Kind"
              [spade 13; spade 9; heart 9; diamond 9; club 9] [13; 9])).
  - reflexivity.
  - vm_compute. reflexivity.
  - reflexivity.
Defined.

(** * The deck *)

Lemma NewDeck_cards :
  deck.NewDeck =
    (mkCard Spades <$> seqZ 1 13) ++ (mkCard Hearts <$> seqZ 1 13) ++
    (mkCard Diamonds <$> seqZ 1 13) ++ (mkCard Clubs <$> seqZ 1 13).
Proof. vm_compute. reflexivity. Qed.

(** X1. A new deck holds 52 cards, no card twice, and a card is in it
    exactly when it is valid: one card for each suit and value. *)
Theorem NewDeck_complete :
  length deck.NewDeck = 52%nat ∧ NoDup deck.NewDeck ∧
  ∀ c, c ∈ deck.NewDeck ↔ IsValidCard c = true.
Proof.
  split_and!.
  - reflexivity.
  - apply (bool_decide_unpack _). vm_compute. exact I.
  - intros c. split.
    + revert c. apply Forall_forall.
      apply (bool_decide_unpack _). vm_compute. exact I.
    + destruct c as [s v]. unfold IsValidCard, Spades, Clubs. simpl. intros Hvalid.
      rewrite NewDeck_cards, !elem_of_app, !list_elem_of_fmap.
      unfold Spades, Hearts, Diamonds, Clubs.
      assert (v ∈ seqZ 1 13) as Hv by (apply elem_of_seqZ; lia).
      assert (s = 0 ∨ s = 1 ∨ s = 2 ∨ s = 3) as [ -> | [ -> | [ -> | -> ] ] ] by lia;
        [left|right; left|right; right; left|right; right; right]; by exists v.
Qed.

Lemma NewDeck_cards_NoDup : NoDup deck.NewDeck.
Proof. apply (bool_decide_unpack _). vm_compute. exact I. Qed.

Lemma NewDeck_cards_valid (c : Card) : c ∈ deck.NewDeck → validCard c.
Proof.
  revert c. apply Forall_forall.
  apply (bool_decide_unpack _). vm_compute. exact I.
Qed.

Lemma findCard_Some (c : Card) (d : list Card) (i j : nat) :
  deck.findCard c d i = Some j →
  ∃ l1 l2, d = l1 ++ c :: l2 ∧ (c ∉ l1) ∧ j = (i + length l1)%nat.
Proof.
  revert i. induction d as [|card rest IH]; intros i; simpl; [done|].
  destruct (decide (card = c)) as [->|Hne].
  - intros [= <-]. exists [], rest. split_and!; [done|by intros ?%elem_of_nil|simpl; lia].
  - intros (l1 & l2 & -> & Hl1 & ->)%IH. exists (card :: l1), l2.
    split_and!; [done| |simpl; lia].
    intros [?|?]%elem_of_cons; [by apply Hne|by apply Hl1].
Qed.

Lemma findCard_None (c : Card) (d : list Card) (i : nat) :
  deck.findCard c d i = None ↔ c ∉ d.
Proof.
  revert i. induction d as [|card rest IH]; intros i; simpl.
  - split; [by intros _ ?%elem_of_nil|done].
  - rewrite not_elem_of_cons. destruct (decide (card = c)) as [->|Hne].
    + split; [done|by intros [? _]].
    + rewrite IH. split; [by split|by intros [_ ?]].
Qed.

(** Taking out the position [findCard] returns. *)
Lemma cut_at_found (c : Card) (l1 l2 : list Card) :
  take (length l1) (l1 ++ c :: l2) ++ drop (length l1 + 1) (l1 ++ c :: l2) = l1 ++ l2.
Proof.
  rewrite take_app_length. f_equal.
  rewrite drop_app_add' by done. done.
Qed.

Lemma RemoveCard_found (c : Card) (l1 l2 : list Card) :
  (c ∉ l1) → deck.RemoveCard (l1 ++ c :: l2) c = (true, l1 ++ l2).
Proof.
  intros Hl1. unfold deck.RemoveCard.
  destruct (deck.findCard c (l1 ++ c :: l2) 0) as [j|] eqn:Hfind.
  - apply findCard_Some in Hfind as (k1 & k2 & Heq & Hk1 & ->). simpl.
    assert (k1 = l1) as ->.
    { clear -Heq Hl1 Hk1. revert k1 Heq Hk1.
      induction l1 as [|x l1 IH]; intros [|y k1] Heq Hk1; simpl in *.
      - done.
      - injection Heq as <- _. destruct Hk1. by left.
      - injection Heq as -> _. destruct Hl1. by left.
      - injection Heq as -> Heq. f_equal. apply IH; [|done|].
        + intros ?. apply Hl1. by right.
        + intros ?. apply Hk1. by right. }
    apply app_inv_head in Heq. injection Heq as <-.
    by rewrite cut_at_found.
  - apply findCard_None in Hfind. destruct Hfind.
    apply elem_of_app. right. by left.
Qed.

(** X2. [RemoveCard] takes out the first occurrence of the card and
    nothing else, and says so; a deck without the card is left as it is.
    After removing from a deck without repeats the card is gone. *)
Theorem RemoveCard_spec (d : list Card) (c : Card) :
  (c ∈ d →
     ∃ l1 l2, d = l1 ++ c :: l2 ∧ (c ∉ l1) ∧
              deck.RemoveCard d c = (true, l1 ++ l2)) ∧
  ((c ∉ d) → deck.RemoveCard d c = (false, d)) ∧
  ((deck.RemoveCard d c).1 = true ↔ c ∈ d) ∧
  (c ∈ d → d ≡ₚ c :: (deck.RemoveCard d c).2) ∧
  (NoDup d → c ∉ (deck.RemoveCard d c).2).
Proof.
  assert (c ∈ d →
          ∃ l1 l2, d = l1 ++ c :: l2 ∧ (c ∉ l1) ∧
                   deck.RemoveCard d c = (true, l1 ++ l2)) as Hfound.
  { intros Hin. apply list_elem_of_split_l in Hin as (l1 & l2 & -> & Hl1).
    exists l1, l2. split_and!; [done..|]. by apply RemoveCard_found. }
  assert ((c ∉ d) → deck.RemoveCard d c = (false, d)) as Hmissing.
  { intros Hnot. unfold deck.RemoveCard.
    by rewrite (proj2 (findCard_None c d 0) Hnot). }
  split_and!; [done..| | |].
  - split.
    + intros Htrue. destruct (decide (c ∈ d)) as [?|Hnot]; [done|].
      by rewrite (Hmissing Hnot) in Htrue.
    + intros (l1 & l2 & _ & _ & ->)%Hfound. done.
  - intros (l1 & l2 & -> & _ & ->)%Hfound. simpl.
    by rewrite Permutation_middle.
  - intros Hnodup. destruct (decide (c ∈ d)) as [Hin|Hnot].
    + destruct (Hfound Hin) as (l1 & l2 & -> & Hl1 & ->). simpl.
      apply NoDup_app in Hnodup as (_ & _ & [Hl2 _]%NoDup_cons).
      by intros [?|?]%elem_of_app.
    + by rewrite (Hmissing Hnot).
Qed.

Lemma RemoveCard_spec_witness :
  deck.RemoveCard [spade 4; heart 9; spade 4] (spade 4) =
    (true, [] ++ [heart 9; spade 4]) ∧
  deck.RemoveCard [heart 9] (spade 4) = (false, [heart 9]).
Proof.
  split.
  - destruct (proj1 (RemoveCard_spec [spade 4; heart 9; spade 4] (spade 4)))
      as (l1 & l2 & Heq & Hl1 & _); [by left|].
    reflexivity.
  - apply (proj1 (proj2 (RemoveCard_spec [heart 9] (spade 4)))).
    intros Hin. apply list_elem_of_singleton in Hin. discriminate.
Defined.

(** X3. [AddCardToDeck] rejects exactly the invalid cards and then leaves
    the deck as it is; a valid card goes to the end.  A deck of valid cards
    stays one, and a card added to a deck that lacks it is taken out again
    by [RemoveCard], which gives the deck back. *)
Theorem AddCardToDeck_spec (d : list Card) (c : Card) :
  ((deck.AddCardToDeck d c).1 = None ↔ IsValidCard c = true) ∧
  (IsValidCard c = false → deck.AddCardToDeck d c = (Some "invalid card", d)) ∧
  (IsValidCard c = true → deck.AddCardToDeck d c = (None, d ++ [c])) ∧
  (Forall validCard d → Forall validCard (deck.AddCardToDeck d c).2) ∧
  (IsValidCard c = true → (c ∉ d) →
     deck.RemoveCard (deck.AddCardToDeck d c).2 c = (true, d)).
Proof.
  unfold deck.AddCardToDeck. destruct (IsValidCard c) eqn:Hvalid; simpl.
  - split_and!; try done.
    + intros Hd. apply Forall_app. split; [done|]. by constructor.
    + intros _ Hnot. rewrite <- (app_nil_r d) at 2. by apply RemoveCard_found.
  - split_and!; done.
Qed.

Lemma AddCardToDeck_spec_witness :
  deck.AddCardToDeck [heart 9] (mkCard 7 0) = (Some "invalid card", [heart 9]) ∧
  deck.AddCardToDeck [heart 9] (spade 4) = (None, [heart 9] ++ [spade 4]).
Proof.
  split.
  - apply (proj1 (proj2 (AddCardToDeck_spec [heart 9] (mkCard 7 0)))). reflexivity.
  - apply (proj1 (proj2 (proj2 (AddCardToDeck_spec [heart 9] (spade 4))))). reflexivity.
Defined.

(** * The shuffle *)

Lemma insert_swap_Permutation (d : list Card) (j : nat) (a y : Card) :
  d !! j = Some y → y :: <[j := a]> d ≡ₚ a :: d.
Proof.
  revert j. induction d as [|x d IH]; intros [|j] Hj; simpl in *; try done.
  - injection Hj as ->. apply Permutation_swap.
  - rewrite Permutation_swap, (IH j Hj). apply Permutation_swap.
Qed.

Lemma swap_Permutation (d : list Card) (i j : nat) : deck.swap d i j ≡ₚ d.
Proof.
  unfold deck.swap.
  destruct (d !! i) as [x|] eqn:Hi; [|done].
  destruct (d !! j) as [y|] eqn:Hj; [|done].
  revert i j Hi Hj. induction d as [|a d IH]; intros [|i] [|j] Hi Hj; simpl in *;
    try done.
  - by injection Hi as ->; injection Hj as ->.
  - injection Hi as ->. by apply insert_swap_Permutation.
  - injection Hj as ->. by apply insert_swap_Permutation.
  - constructor. by apply IH.
Qed.

Lemma shuffleLoop_Permutation (rnd : nat → nat) (i : nat) (d : list Card) :
  deck.shuffleLoop rnd i d ≡ₚ d.
Proof.
  revert d. induction i as [|i IH]; intros d; simpl; [done|].
  by rewrite IH, swap_Permutation.
Qed.

(** X4. Whatever numbers the generator gives, the shuffled deck holds the
    cards of the deck it was given, each as often as before. *)
Theorem Shuffle_Permutation (rnd : nat → nat) (d : list Card) :
  deck.Shuffle rnd d ≡ₚ d ∧ length (deck.Shuffle rnd d) = length d ∧
  (NoDup d → NoDup (deck.Shuffle rnd d)).
Proof.
  assert (deck.Shuffle rnd d ≡ₚ d) as Hp by apply shuffleLoop_Permutation.
  split_and!; [done|by rewrite Hp|by rewrite Hp].
Qed.

Lemma Shuffle_Permutation_witness :
  NoDup (deck.Shuffle (fun i => (3 * i + 1)%nat) [spade 4; heart 9; club 2]).
Proof.
  apply (proj2 (proj2 (Shuffle_Permutation (fun i => (3 * i + 1)%nat)
                         [spade 4; heart 9; club 2]))).
  apply (bool_decide_unpack _). vm_compute. exact I.
Defined.

(** * Verifying the hands *)

(** One hand against the copy of the deck: either all its cards were
    found and taken out, or the cards before the first missing one were. *)
Lemma verifyHand_spec (hand deckCopy : list Card) :
  ∃ found taken rest deckCopy',
    cardgame.verifyHand hand deckCopy = (found, deckCopy') ∧
    hand = taken ++ rest ∧ deckCopy ≡ₚ taken ++ deckCopy' ∧
    (if found then rest = [] else ∃ card rest', rest = card :: rest' ∧ card ∉ deckCopy').
Proof.
  revert deckCopy. induction hand as [|card hand IH]; intros deckCopy; simpl.
  - exists true, [], [], deckCopy. done.
  - destruct (deck.findCard card deckCopy 0) as [j|] eqn:Hfind.
    + apply findCard_Some in Hfind as (l1 & l2 & -> & Hl1 & ->). simpl.
      rewrite cut_at_found.
      destruct (IH (l1 ++ l2)) as (found & taken & rest & deckCopy' & -> & -> & Hp & Hrest).
      exists found, (card :: taken), rest, deckCopy'. split_and!; [done..| |done].
      rewrite <- Permutation_middle. simpl. by rewrite Hp.
    + apply findCard_None in Hfind.
      exists false, [], (card :: hand), deckCopy. split_and!; [done..|].
      by exists card, hand.
Qed.

Lemma verifyLoop_app (hands : list (list Card)) (i : nat) (deckCopy : list Card)
    (invalid : list Z) :
  cardgame.verifyLoop hands i deckCopy invalid =
  invalid ++ cardgame.verifyLoop hands i deckCopy [].
Proof.
  revert i deckCopy invalid. induction hands as [|hand hands IH];
    intros i deckCopy invalid; simpl.
  - by rewrite app_nil_r.
  - destruct (cardgame.verifyHand hand deckCopy) as [[|] deckCopy']; [apply IH|].
    simpl. rewrite IH, (IH _ _ [_]). by rewrite <- !app_assoc.
Qed.

Lemma verifyLoop_valid (hands : list (list Card)) (i : nat) (deckCopy : list Card) :
  cardgame.verifyLoop hands i deckCopy [] = [] ↔ concat hands ⊆+ deckCopy.
Proof.
  revert i deckCopy. induction hands as [|hand hands IH]; intros i deckCopy; simpl.
  - split; [intros _; apply submseteq_nil_l|done].
  - destruct (verifyHand_spec hand deckCopy)
      as (found & taken & rest & deckCopy' & -> & -> & Hp & Hrest).
    destruct found.
    + subst rest. rewrite app_nil_r, IH, Hp. split.
      * apply submseteq_skips_l.
      * apply submseteq_app_inv_l.
    + destruct Hrest as (card & rest' & -> & Hcard).
      rewrite verifyLoop_app. simpl. split; [done|].
      rewrite Hp, <- !app_assoc. intros Hsub%submseteq_app_inv_l.
      destruct Hcard. eapply elem_of_submseteq; [|exact Hsub]. by left.
Qed.

Lemma verifyLoop_indices (hands : list (list Card)) (i : nat) (deckCopy : list Card) :
  StronglySorted Z.lt (cardgame.verifyLoop hands i deckCopy []) ∧
  Forall (fun k => Z.of_nat i <= k < Z.of_nat (i + length hands))
    (cardgame.verifyLoop hands i deckCopy []).
Proof.
  revert i deckCopy. induction hands as [|hand hands IH]; intros i deckCopy; simpl.
  - split; constructor.
  - destruct (cardgame.verifyHand hand deckCopy) as [found deckCopy'].
    destruct (IH (S i) deckCopy') as [Hsorted Hrange].
    assert (Forall (fun k => Z.of_nat i < k < Z.of_nat (i + S (length hands)))
              (cardgame.verifyLoop hands (S i) deckCopy' [])) as Hrange'.
    { eapply Forall_impl; [exact Hrange|]. simpl. lia. }
    destruct found.
    + split; [done|]. eapply Forall_impl; [exact Hrange'|]. simpl. lia.
    + rewrite verifyLoop_app. simpl. split.
      * constructor; [done|]. eapply Forall_impl; [exact Hrange'|]. simpl. lia.
      * constructor; [lia|]. eapply Forall_impl; [exact Hrange'|]. simpl. lia.
Qed.

(** X5. [VerifyHands] answers true exactly when the cards of all hands
    together, counted with repeats, are among the cards of the reference
    deck; then it lists no hand.  The hands it lists come in increasing
    order and are indices of hands. *)
Theorem VerifyHands_spec (g : cardgame.Game) :
  ((cardgame.VerifyHands g).1 = true ↔
     concat (cardgame.Hands g) ⊆+ cardgame.ReferenceDeck g) ∧
  ((cardgame.VerifyHands g).1 = true ↔ (cardgame.VerifyHands g).2 = []) ∧
  StronglySorted Z.lt (cardgame.VerifyHands g).2 ∧
  Forall (fun k => 0 <= k < Z.of_nat (length (cardgame.Hands g)))
    (cardgame.VerifyHands g).2.
Proof.
  unfold cardgame.VerifyHands. simpl.
  assert (∀ l : list Z, bool_decide (length l = 0%nat) = true ↔ l = []) as Hnil.
  { intros l. rewrite bool_decide_eq_true. by destruct l. }
  split_and!.
  - by rewrite Hnil, verifyLoop_valid.
  - apply Hnil.
  - apply verifyLoop_indices.
  - apply (verifyLoop_indices _ 0).
Qed.

(** * Dealing keeps the cards *)

Lemma concat_insert_snoc (hands : list (list Card)) (i : nat) (hand : list Card)
    (card : Card) :
  hands !! i = Some hand →
  concat (<[i := hand ++ [card]]> hands) ≡ₚ card :: concat hands.
Proof.
  revert i. induction hands as [|h hands IH]; intros [|i] Hi; simpl in *; try done.
  - injection Hi as ->. rewrite <- app_assoc. simpl.
    by rewrite <- Permutation_middle.
  - rewrite (IH i Hi). by rewrite Permutation_middle.
Qed.

Lemma Deal_cards (g : cardgame.Game) (handIndex : Z) :
  concat (cardgame.Hands (cardgame.Deal g handIndex).2) ++
    cardgame.Deck (cardgame.Deal g handIndex).2 ≡ₚ
  concat (cardgame.Hands g) ++ cardgame.Deck g ∧
  cardgame.ReferenceDeck (cardgame.Deal g handIndex).2 = cardgame.ReferenceDeck g ∧
  length (cardgame.Hands (cardgame.Deal g handIndex).2) = length (cardgame.Hands g).
Proof.
  destruct (decide (0 <= handIndex < Z.of_nat (length (cardgame.Hands g)))) as [Hin|Hout].
  - rewrite (Deal_in_range g handIndex Hin).
    destruct (cardgame.Deck g) as [|card rest] eqn:Hdeck; simpl.
    + by rewrite Hdeck.
    + destruct (lookup_lt_is_Some_2 (cardgame.Hands g) (Z.to_nat handIndex))
        as [hand Hhand]; [lia|].
      rewrite Hhand, length_insert. simpl. split_and!; [|done..].
      rewrite (concat_insert_snoc _ _ _ _ Hhand). simpl.
      by rewrite Permutation_middle.
  - by rewrite (Deal_bad_index g handIndex Hout).
Qed.

Lemma VerifyHands_conserved (g : cardgame.Game) :
  conserved g → cardgame.VerifyHands g = (true, []).
Proof.
  unfold conserved, cardgame.VerifyHands. intros Hc.
  assert (cardgame.verifyLoop (cardgame.Hands g) 0 (cardgame.ReferenceDeck g) [] = [])
    as ->; [|done].
  apply verifyLoop_valid. rewrite <- Hc. by apply submseteq_inserts_r.
Qed.

Lemma Deal_conserved (g : cardgame.Game) (handIndex : Z) :
  conserved g → conserved (cardgame.Deal g handIndex).2.
Proof.
  unfold conserved. intros Hc.
  destruct (Deal_cards g handIndex) as (-> & -> & _). done.
Qed.

(** X6. [Deal] loses no card and makes none: whether it succeeds or not,
    the hands and the deck together hold the same cards afterwards, and the
    reference deck and the number of hands stay.  So after any sequence of
    deals on a game whose hands and deck make up the reference deck,
    [VerifyHands] answers true and lists no hand. *)
Theorem Deal_keeps_cards (g : cardgame.Game) (handIndices : list Z) :
  let deal := fun g handIndex => (cardgame.Deal g handIndex).2 in
  concat (cardgame.Hands (fold_left deal handIndices g)) ++
    cardgame.Deck (fold_left deal handIndices g) ≡ₚ
  concat (cardgame.Hands g) ++ cardgame.Deck g ∧
  cardgame.ReferenceDeck (fold_left deal handIndices g) = cardgame.ReferenceDeck g ∧
  length (cardgame.Hands (fold_left deal handIndices g)) = length (cardgame.Hands g) ∧
  (conserved g → cardgame.VerifyHands (fold_left deal handIndices g) = (true, [])).
Proof.
  intros deal.
  assert (concat (cardgame.Hands (fold_left deal handIndices g)) ++
            cardgame.Deck (fold_left deal handIndices g) ≡ₚ
          concat (cardgame.Hands g) ++ cardgame.Deck g ∧
          cardgame.ReferenceDeck (fold_left deal handIndices g) =
            cardgame.ReferenceDeck g ∧
          length (cardgame.Hands (fold_left deal handIndices g)) =
            length (cardgame.Hands g)) as (Hcards & Href & Hlen).
  { revert g. induction handIndices as [|handIndex rest IH]; intros g; simpl; [done|].
    destruct (IH (deal g handIndex)) as (-> & -> & ->). apply Deal_cards. }
  split_and!; [done..|].
  intros Hc. apply VerifyHands_conserved. unfold conserved in *.
  by rewrite Hcards, Href.
Qed.

Lemma Deal_keeps_cards_witness :
  let g := cardgame.mkGame [spade 9; heart 4] [[club 2]; []]
             [heart 4; club 2; spade 9] in
  cardgame.VerifyHands
    (fold_left (fun g handIndex => (cardgame.Deal g handIndex).2) [1; 5; 0; 0] g) =
    (true, []).
Proof.
  intros g.
  apply (proj2 (proj2 (proj2 (Deal_keeps_cards g [1; 5; 0; 0])))).
  unfold conserved. simpl.
  change ([club 2; spade 9; heart 4] ≡ₚ [heart 4; club 2; spade 9]).
  symmetry. apply (Permutation_cons_append [club 2; spade 9] (heart 4)).
Defined.

(** X7. A new game with up to 2^20 hands starts with the 52 cards of a
    new deck in some order as its deck, a new deck as its reference deck and
    [numHands] empty hands; [VerifyHands] accepts it.  A negative number of
    hands makes [NewGame] panic, and so does a number of hands whose slice
    would take more than [maxAlloc] bytes. *)
Theorem NewGame_spec (numHands : Z) (rnd : nat → nat) :
  (numHands < 0 ∨ maxAlloc < cardgame.sizeofHand * numHands →
     cardgame.NewGame numHands rnd = Panic) ∧
  (0 <= numHands <= 2 ^ 20 →
     ∃ g, cardgame.NewGame numHands rnd = Ok g ∧
          cardgame.Deck g ≡ₚ deck.NewDeck ∧
          cardgame.ReferenceDeck g = deck.NewDeck ∧
          cardgame.Hands g = replicate (Z.to_nat numHands) [] ∧
          conserved g ∧ cardgame.VerifyHands g = (true, [])).
Proof.
  unfold cardgame.NewGame, makeslice, cardgame.sizeofHand, maxAlloc.
  split; intros Hn.
  - by replace ((numHands <? 0) || (2 ^ 48 <? 24 * numHands)) with true by lia.
  - replace ((numHands <? 0) || (2 ^ 48 <? 24 * numHands)) with false by lia.
    eexists. split; [done|]. simpl.
    assert (deck.Shuffle rnd deck.NewDeck ≡ₚ deck.NewDeck) as Hp
      by apply shuffleLoop_Permutation.
    assert (concat (replicate (Z.to_nat numHands) ([] : list Card)) = []) as Hempty.
    { induction (Z.to_nat numHands) as [|n IH]; simpl; done. }
    assert (conserved
              (cardgame.mkGame (deck.Shuffle rnd deck.NewDeck)
                 (replicate (Z.to_nat numHands) []) deck.NewDeck)) as Hc.
    { unfold conserved. simpl. by rewrite Hempty. }
    split_and!; [done..|]. by apply VerifyHands_conserved.
Qed.

Lemma NewGame_spec_witness :
  cardgame.NewGame (-1) (fun i => i) = Panic ∧
  cardgame.NewGame (2 ^ 50) (fun i => i) = Panic ∧
  ∃ g, cardgame.NewGame 3 (fun i => i) = Ok g ∧
       cardgame.Hands g = replicate (Z.to_nat 3) [].
Proof.
  split_and!.
  - apply (proj1 (NewGame_spec (-1) (fun i => i))). left. lia.
  - apply (proj1 (NewGame_spec (2 ^ 50) (fun i => i))). right. reflexivity.
  - destruct (proj2 (NewGame_spec 3 (fun i => i))) as (g & Hg & _ & _ & Hhands & _);
      [lia|].
    exists g. split; [exact Hg|exact Hhands].
Defined.

(** * Dealing the hole cards and the community cards *)

Lemma withGame_same (g : holdem.HoldemGame) : holdem.withGame g (holdem.Game g) = g.
Proof. by destruct g. Qed.

Lemma seqZ_from_zero (n : nat) : seqZ 0 (Z.of_nat n) = Z.of_nat <$> seq 0 n.
Proof.
  unfold seqZ. rewrite Nat2Z.id. apply list_fmap_ext. intros _ i _. lia.
Qed.

(** One round of dealing to the hands [k], ..., [k + m - 1]. *)
Lemma dealRound_spec (m k : nat) (g : holdem.HoldemGame) :
  (k + m <= length (cardgame.Hands (holdem.Game g)))%nat →
  ∃ g',
    holdem.dealRound (Z.of_nat <$> seq k m) g =
      (if decide (m <= length (cardgame.Deck (holdem.Game g)))%nat then holdem.Done
       else holdem.Failed
              ("error dealing to hand " +:+
               pretty (Z.of_nat (k + length (cardgame.Deck (holdem.Game g)))) +:+
               ": no cards left in the deck"), g') ∧
    cardgame.Deck (holdem.Game g') = drop m (cardgame.Deck (holdem.Game g)) ∧
    cardgame.ReferenceDeck (holdem.Game g') = cardgame.ReferenceDeck (holdem.Game g) ∧
    holdem.CommunityCards g' = holdem.CommunityCards g ∧
    holdem.PlayerHands g' = holdem.PlayerHands g ∧
    holdem.NumPlayers g' = holdem.NumPlayers g ∧
    length (cardgame.Hands (holdem.Game g')) = length (cardgame.Hands (holdem.Game g)) ∧
    ∀ i, cardgame.Hands (holdem.Game g') !! i =
         (fun h => h ++ dealtAt (cardgame.Deck (holdem.Game g)) k m i) <$>
           (cardgame.Hands (holdem.Game g) !! i).
Proof.
  revert k g. induction m as [|m IH]; intros k g Hk.
  - exists g. simpl. rewrite drop_0. split_and!; try done.
    intros i. unfold dealtAt. rewrite decide_False by lia.
    destruct (_ !! i); simpl; by rewrite ?app_nil_r.
  - simpl. rewrite Deal_in_range by lia.
    destruct (cardgame.Deck (holdem.Game g)) as [|card rest] eqn:Hdeck.
    + exists g. rewrite withGame_same, Hdeck. simpl.
      rewrite Nat.add_0_r. split_and!; try done.
      intros i. unfold dealtAt. rewrite lookup_nil.
      destruct (decide _), (_ !! i); simpl; by rewrite ?app_nil_r.
    + destruct (lookup_lt_is_Some_2 (cardgame.Hands (holdem.Game g)) k)
        as [hand Hhand]; [lia|].
      rewrite Nat2Z.id, Hhand. simpl.
      set (g1 := holdem.withGame g _).
      destruct (IH (S k) g1) as (g' & Hrun & Hd & Href & Hcc & Hph & Hnp & Hlen & Hhands).
      { subst g1. simpl. rewrite length_insert. lia. }
      exists g'. subst g1. simpl in Hrun, Hd, Href, Hcc, Hph, Hnp, Hlen, Hhands.
      rewrite length_insert in Hlen. split_and!; try done.
      * refine (eq_trans Hrun _). f_equal.
        replace (k + S (length rest))%nat with (S (k + length rest)) by lia.
        repeat case_decide; done || lia.
      * intros i. rewrite Hhands. unfold dealtAt.
        destruct (decide (i = k)) as [->|Hne].
        -- rewrite list_lookup_insert_eq by (by eapply lookup_lt_Some).
           rewrite Hhand. simpl. rewrite decide_False by lia.
           rewrite decide_True by lia. rewrite Nat.sub_diag. simpl.
           by rewrite app_nil_r.
        -- rewrite list_lookup_insert_ne by done.
           destruct (decide (S k <= i < S k + m)%nat) as [Hi|Hi].
           ++ rewrite decide_True by lia.
              by replace (i - k)%nat with (S (i - S k)) by lia.
           ++ by rewrite decide_False by lia.
Qed.

Lemma mod_once (a n : nat) : (n <= a < 2 * n)%nat → (a `mod` n = a - n)%nat.
Proof.
  intros Ha. replace a with ((a - n) + 1 * n)%nat at 1 by lia.
  rewrite Nat.Div0.mod_add. apply Nat.mod_small. lia.
Qed.

Lemma DealHoleCards_run (g : holdem.HoldemGame) :
  let n := length (cardgame.Hands (holdem.Game g)) in
  let d := cardgame.Deck (holdem.Game g) in
  holdem.NumPlayers g = Z.of_nat n →
  ∃ st g',
    holdem.DealHoleCards g = (st, g') ∧
    ((2 * n <= length d)%nat → st = holdem.Done) ∧
    ((length d < 2 * n)%nat →
       st = holdem.Failed ("error dealing to hand " +:+
                           pretty (Z.of_nat (length d `mod` n)) +:+
                           ": no cards left in the deck")) ∧
    cardgame.Deck (holdem.Game g') = drop (2 * n) d ∧
    (∀ i h, cardgame.Hands (holdem.Game g) !! i = Some h →
            cardgame.Hands (holdem.Game g') !! i =
              Some (h ++ option_list (d !! i) ++ option_list (d !! (n + i)%nat))) ∧
    length (cardgame.Hands (holdem.Game g')) = n ∧
    cardgame.ReferenceDeck (holdem.Game g') = cardgame.ReferenceDeck (holdem.Game g) ∧
    holdem.CommunityCards g' = holdem.CommunityCards g ∧
    holdem.PlayerHands g' = holdem.PlayerHands g ∧
    holdem.NumPlayers g' = holdem.NumPlayers g.
Proof.
  intros n d Hnum. unfold holdem.DealHoleCards.
  rewrite Hnum, seqZ_from_zero.
  destruct (dealRound_spec n 0 g) as (g1 & -> & Hd1 & Href1 & Hcc1 & Hph1 & Hnp1 & Hlen1 & Hh1);
    [done|].
  fold n d in Hd1, Hlen1, Hh1 |- *.
  destruct (decide (n <= length d)%nat) as [Hfirst|Hfirst].
  - rewrite Hnp1, Hnum, seqZ_from_zero.
    destruct (dealRound_spec n 0 g1)
      as (g2 & -> & Hd2 & Href2 & Hcc2 & Hph2 & Hnp2 & Hlen2 & Hh2); [lia|].
    rewrite Hd1 in Hd2, Hh2 |- *. rewrite length_drop.
    eexists _, g2. split; [done|]. split_and!.
    + intros ?. by rewrite decide_True by lia.
    + intros ?. rewrite decide_False by lia. simpl.
      by rewrite mod_once by lia.
    + rewrite Hd2, drop_drop. f_equal. lia.
    + intros i h Hi. rewrite Hh2, Hh1, Hi. simpl. f_equal.
      rewrite <- app_assoc. do 2 f_equal.
      * unfold dealtAt. assert (i < n)%nat by (by eapply lookup_lt_Some).
        rewrite decide_True by lia. by rewrite Nat.sub_0_r.
      * unfold dealtAt. assert (i < n)%nat by (by eapply lookup_lt_Some).
        rewrite decide_True by lia. by rewrite Nat.sub_0_r, lookup_drop.
    + lia.
    + congruence.
    + congruence.
    + congruence.
    + congruence.
  - eexists _, g1. split; [done|]. split_and!; try done.
    + intros ?. lia.
    + intros _. simpl. rewrite Nat.mod_small by lia. done.
    + rewrite Hd1, !drop_ge by lia. done.
    + intros i h Hi. rewrite Hh1, Hi. simpl. do 2 f_equal.
      unfold dealtAt. assert (i < n)%nat by (by eapply lookup_lt_Some).
      rewrite decide_True by lia. rewrite Nat.sub_0_r.
      rewrite (lookup_ge_None_2 d (n + i)) by lia. simpl. by rewrite app_nil_r.
    + congruence.
Qed.

(** X8. [DealHoleCards] on a game of [n] hands deals the deck's cards one
    by one, hand 0 to hand [n - 1] and round again: hand [i] receives the
    cards at positions [i] and [n + i] of the deck, as far as the deck
    reaches, and the deck loses its first [2 n] cards.  It succeeds when
    the deck holds [2 n] cards; otherwise it reports the hand at which the
    deck ran out and keeps the cards dealt so far in the hands. *)
Theorem DealHoleCards_spec (g : holdem.HoldemGame) :
  let n := length (cardgame.Hands (holdem.Game g)) in
  let d := cardgame.Deck (holdem.Game g) in
  holdem.NumPlayers g = Z.of_nat n →
  ∃ st g',
    holdem.DealHoleCards g = (st, g') ∧
    ((2 * n <= length d)%nat → st = holdem.Done) ∧
    ((length d < 2 * n)%nat →
       st = holdem.Failed ("error dealing to hand " +:+
                           pretty (Z.of_nat (length d `mod` n)) +:+
                           ": no cards left in the deck")) ∧
    cardgame.Deck (holdem.Game g') = drop (2 * n) d ∧
    (∀ i h, cardgame.Hands (holdem.Game g) !! i = Some h →
            cardgame.Hands (holdem.Game g') !! i =
              Some (h ++ option_list (d !! i) ++ option_list (d !! (n + i)%nat))) ∧
    length (cardgame.Hands (holdem.Game g')) = n ∧
    cardgame.ReferenceDeck (holdem.Game g') = cardgame.ReferenceDeck (holdem.Game g) ∧
    holdem.CommunityCards g' = holdem.CommunityCards g ∧
    holdem.PlayerHands g' = holdem.PlayerHands g ∧
    holdem.NumPlayers g' = holdem.NumPlayers g.
Proof. apply DealHoleCards_run. Qed.

Lemma DealHoleCards_spec_witness :
  let g := holdem.mkHoldemGame
             (cardgame.mkGame [spade 9; heart 4; club 2] [[]; []] [])
             [] [] 2 in
  ∃ st g',
    holdem.DealHoleCards g = (st, g') ∧
    st = holdem.Failed "error dealing to hand 1: no cards left in the deck" ∧
    cardgame.Hands (holdem.Game g') !! 0%nat = Some [spade 9; club 2] ∧
    cardgame.Hands (holdem.Game g') !! 1%nat = Some [heart 4].
Proof.
  intros g.
  destruct (DealHoleCards_spec g eq_refl)
    as (st & g' & Hrun & _ & Hfail & _ & Hhands & _).
  exists st, g'. split_and!.
  - exact Hrun.
  - apply Hfail. simpl. lia.
  - apply (Hhands 0%nat []). reflexivity.
  - apply (Hhands 1%nat []). reflexivity.
Defined.

Lemma dealCommunity_spec (n : nat) (g : holdem.HoldemGame) :
  ∃ g',
    holdem.dealCommunity n g =
      (if decide (n <= length (cardgame.Deck (holdem.Game g)))%nat then holdem.Done
       else holdem.Failed "error dealing community card: no cards left in the deck",
       g') ∧
    holdem.CommunityCards g' =
      holdem.CommunityCards g ++ take n (cardgame.Deck (holdem.Game g)) ∧
    cardgame.Deck (holdem.Game g') = drop n (cardgame.Deck (holdem.Game g)) ∧
    cardgame.Hands (holdem.Game g') = cardgame.Hands (holdem.Game g) ∧
    cardgame.ReferenceDeck (holdem.Game g') = cardgame.ReferenceDeck (holdem.Game g) ∧
    holdem.PlayerHands g' = holdem.PlayerHands g ∧
    holdem.NumPlayers g' = holdem.NumPlayers g.
Proof.
  revert g. induction n as [|n IH]; intros g.
  - exists g. simpl. rewrite app_nil_r, drop_0. split_and!; try done.
  - simpl. destruct (cardgame.Deck (holdem.Game g)) as [|card rest] eqn:Hdeck; simpl.
    + eexists. split; [done|]. simpl. rewrite app_nil_r. split_and!; done.
    + set (g1 := holdem.mkHoldemGame _ _ _ _).
      destruct (IH g1) as (g' & Hrun & Hcc & Hd & Hh & Href & Hph & Hnp).
      exists g'. subst g1. simpl in Hrun, Hcc, Hd, Hh, Href, Hph, Hnp.
      split_and!; try done.
      * rewrite Hrun. f_equal. repeat case_decide; done || lia.
      * by rewrite Hcc, <- app_assoc.
Qed.

(** X9. [DealCommunityCards] moves the first five cards of the deck, in
    order, to the end of the community cards and touches nothing else.
    When the deck holds fewer than five cards it moves them all, leaves the
    deck empty and reports the error: the cards drawn before the deck ran
    out are not put back. *)
Theorem DealCommunityCards_spec (g : holdem.HoldemGame) :
  let d := cardgame.Deck (holdem.Game g) in
  ∃ st g',
    holdem.DealCommunityCards g = (st, g') ∧
    ((5 <= length d)%nat → st = holdem.Done) ∧
    ((length d < 5)%nat →
       st = holdem.Failed "error dealing community card: no cards left in the deck" ∧
       cardgame.Deck (holdem.Game g') = [] ∧
       holdem.CommunityCards g' = holdem.CommunityCards g ++ d) ∧
    holdem.CommunityCards g' = holdem.CommunityCards g ++ take 5 d ∧
    cardgame.Deck (holdem.Game g') = drop 5 d ∧
    cardgame.Hands (holdem.Game g') = cardgame.Hands (holdem.Game g) ∧
    cardgame.ReferenceDeck (holdem.Game g') = cardgame.ReferenceDeck (holdem.Game g) ∧
    holdem.PlayerHands g' = holdem.PlayerHands g ∧
    holdem.NumPlayers g' = holdem.NumPlayers g.
Proof.
  intros d. unfold holdem.DealCommunityCards.
  destruct (dealCommunity_spec 5 g) as (g' & -> & Hcc & Hd & Hh & Href & Hph & Hnp).
  fold d in Hcc, Hd |- *.
  eexists _, g'. split; [done|]. split_and!; try done.
  - intros ?. by rewrite decide_True.
  - intros Hshort. rewrite decide_False by lia.
    rewrite Hd, Hcc, drop_ge, take_ge by lia. done.
Qed.

Lemma DealCommunityCards_spec_witness :
  let g := holdem.mkHoldemGame
             (cardgame.mkGame [spade 9; heart 4; club 2] [[]; []] [])
             [diamond 7] [] 2 in
  ∃ st g',
    holdem.DealCommunityCards g = (st, g') ∧
    st = holdem.Failed "error dealing community card: no cards left in the deck" ∧
    cardgame.Deck (holdem.Game g') = [] ∧
    holdem.CommunityCards g' = [diamond 7] ++ [spade 9; heart 4; club 2].
Proof.
  intros g.
  destruct (DealCommunityCards_spec g) as (st & g' & Hrun & _ & Hshort & _).
  exists st, g'. split; [exact Hrun|]. apply Hshort. simpl. lia.
Defined.

(** * Evaluating the players' hands *)

Lemma bestOf_returns (combinations : list (list Card)) (start : HandResult) :
  Forall (fun combo => (5 <= length combo)%nat) combinations →
  ∃ best, bestOf combinations start = Ok best.
Proof.
  intros Hall. revert start. induction Hall as [|combo rest Hlen Hall IH];
    intros start; simpl; [by eexists|].
  destruct (evaluateHand_returns combo Hlen) as [r ->]. simpl. apply IH.
Qed.

Lemma EvaluateBestHand_returns (cards : list Card) :
  (5 <= length cards)%nat → ∃ best, EvaluateBestHand cards = Ok best.
Proof.
  intros Hlen. unfold EvaluateBestHand.
  rewrite (proj2 (Nat.ltb_ge _ _) Hlen), generateCombinations_chooseFrom.
  assert (take 5 cards ∈ chooseFrom cards 5) as Hfirst.
  { apply elem_of_chooseFrom. split; [apply sublist_take|].
    rewrite length_take. lia. }
  destruct (chooseFrom cards 5) as [|c0 rest] eqn:Hcombos;
    [by apply elem_of_nil in Hfirst|].
  change (index (c0 :: rest) 0) with (Ok c0).
  apply (bestOf_returns (c0 :: rest)
           (mkHandResult HighCard "High Card" c0 (getHighCards c0 5))).
  rewrite <- Hcombos. apply Forall_forall.
  intros combo [_ ->]%elem_of_chooseFrom. done.
Qed.

Lemma EvaluateBestHand_short (cards : list Card) :
  (length cards < 5)%nat →
  EvaluateBestHand cards = Err "not enough cards to evaluate hand".
Proof. intros Hlen. unfold EvaluateBestHand. by rewrite (proj2 (Nat.ltb_lt _ _) Hlen). Qed.

(** The loop over the hands when every hand, with the community cards,
    has five cards or more. *)
Lemma evaluateLoop_done (hands : list (list Card)) (i : nat) (g : holdem.HoldemGame) :
  (i + length hands <= length (holdem.PlayerHands g))%nat →
  Forall (fun hand => (5 <= length (hand ++ holdem.CommunityCards g))%nat) hands →
  ∃ g',
    holdem.evaluateLoop hands i g = (holdem.Done, g') ∧
    holdem.Game g' = holdem.Game g ∧
    holdem.CommunityCards g' = holdem.CommunityCards g ∧
    holdem.NumPlayers g' = holdem.NumPlayers g ∧
    length (holdem.PlayerHands g') = length (holdem.PlayerHands g) ∧
    (∀ j, (j < i ∨ i + length hands <= j)%nat →
          holdem.PlayerHands g' !! j = holdem.PlayerHands g !! j) ∧
    (∀ k hand, hands !! k = Some hand →
       ∃ r, EvaluateBestHand (hand ++ holdem.CommunityCards g) = Ok r ∧
            holdem.PlayerHands g' !! (i + k)%nat =
              Some (holdem.mkPlayerHand (Z.of_nat (i + k) + 1) hand r)).
Proof.
  intros Hlen Hall. revert i g Hlen Hall.
  induction hands as [|hand hands IH]; intros i g Hlen Hall; simpl.
  - exists g. split_and!; try done.
  - apply Forall_cons in Hall as [Hhand Hall]. simpl in Hlen.
    destruct (EvaluateBestHand_returns _ Hhand) as [r Hr]. rewrite Hr.
    rewrite decide_True by lia.
    set (g1 := holdem.mkHoldemGame _ _ _ _).
    destruct (IH (S i) g1) as (g' & Hrun & Hgame & Hcc & Hnp & Hphlen & Hother & Hset).
    { subst g1. simpl. rewrite length_insert. lia. }
    { done. }
    exists g'. subst g1. simpl in Hrun, Hgame, Hcc, Hnp, Hphlen, Hother, Hset.
    rewrite length_insert in Hphlen.
    split_and!; try done.
    + intros j Hj. rewrite Hother by lia. apply list_lookup_insert_ne. lia.
    + intros [|k] hand' Hk; simpl in Hk.
      * injection Hk as <-. exists r. split; [done|].
        rewrite Nat.add_0_r, Hother by lia.
        apply list_lookup_insert_eq. lia.
      * destruct (Hset k hand' Hk) as (r' & Hr' & Hlook). exists r'. split; [done|].
        by replace (i + S k)%nat with (S i + k)%nat by lia.
Qed.

(** X10. [EvaluateHands], on a game with a player entry for every hand:
    when each hand with the community cards has five cards or more, it
    fills entry [i] with player number [i + 1], the hand as hole cards and
    the best hand of the hole cards followed by the community cards, and
    leaves the rest of the game alone.  When the first hand has too few
    cards it returns the error for player 1 and changes nothing. *)
Theorem EvaluateHands_spec (g : holdem.HoldemGame) :
  let hands := cardgame.Hands (holdem.Game g) in
  let community := holdem.CommunityCards g in
  (length hands <= length (holdem.PlayerHands g))%nat →
  (Forall (fun hand => (5 <= length (hand ++ community))%nat) hands →
     ∃ g',
       holdem.EvaluateHands g = (holdem.Done, g') ∧
       holdem.Game g' = holdem.Game g ∧
       holdem.CommunityCards g' = community ∧
       holdem.NumPlayers g' = holdem.NumPlayers g ∧
       length (holdem.PlayerHands g') = length (holdem.PlayerHands g) ∧
       (∀ j, (length hands <= j)%nat →
             holdem.PlayerHands g' !! j = holdem.PlayerHands g !! j) ∧
       (∀ i hand, hands !! i = Some hand →
          ∃ r, EvaluateBestHand (hand ++ community) = Ok r ∧
               holdem.PlayerHands g' !! i =
                 Some (holdem.mkPlayerHand (Z.of_nat i + 1) hand r))) ∧
  (∀ hand rest, hands = hand :: rest → (length (hand ++ community) < 5)%nat →
     holdem.EvaluateHands g =
       (holdem.Failed
          "error evaluating hand for player 1: not enough cards to evaluate hand",
        g)).
Proof.
  intros hands community Hlen. unfold holdem.EvaluateHands. fold hands. split.
  - intros Hall.
    destruct (evaluateLoop_done hands 0 g) as (g' & Hrun & ? & ? & ? & ? & Hother & Hset);
      [done..|].
    exists g'. split_and!; try done.
    intros j Hj. apply Hother. lia.
  - intros hand rest -> Hshort. simpl. fold community.
    by rewrite (EvaluateBestHand_short _ Hshort).
Qed.

Lemma EvaluateHands_spec_witness :
  let g := holdem.mkHoldemGame
             (cardgame.mkGame [] [[spade 9; heart 4]] [])
             [club 2; club 5; diamond 9; heart 13; spade 1]
             [holdem.zeroPlayerHand] 1 in
  ∃ g' r,
    holdem.EvaluateHands g = (holdem.Done, g') ∧
    holdem.PlayerHands g' !! 0%nat =
      Some (holdem.mkPlayerHand 1 [spade 9; heart 4] r).
Proof.
  intros g.
  destruct (proj1 (EvaluateHands_spec g ltac:(simpl; lia)))
    as (g' & Hrun & _ & _ & _ & _ & _ & Hset).
  { repeat constructor; simpl; lia. }
  destruct (Hset 0%nat [spade 9; heart 4] eq_refl) as (r & _ & Hlook).
  exists g', r. split; [exact Hrun|exact Hlook].
Defined.

(** * More on the best hand *)

(** The best hand of valid cards: well formed, at least every
    combination's classification, equal to one of them, and made of the
    cards of a combination. *)
Lemma EvaluateBestHand_best (cards : list Card) (best : HandResult) :
  Forall validCard cards → EvaluateBestHand cards = Ok best →
  wellFormed best ∧
  (∀ combo, combo `sublist_of` cards → length combo = 5%nat →
     ∃ r, evaluateHand combo = Ok r ∧ wellFormed r ∧ CompareHands best r >= 0) ∧
  (∃ combo r, combo `sublist_of` cards ∧ length combo = 5%nat ∧
              evaluateHand combo = Ok r ∧ wellFormed r ∧ CompareHands best r = 0) ∧
  (∃ combo, combo `sublist_of` cards ∧ length combo = 5%nat ∧ Cards best ≡ₚ combo).
Proof.
  intros Hvalid. unfold EvaluateBestHand.
  destruct (Nat.ltb_spec (length cards) 5) as [?|Hlen]; [done|].
  rewrite generateCombinations_chooseFrom.
  assert (Forall (fun combo => length combo = 5%nat ∧ Forall validCard combo)
            (chooseFrom cards 5)) as Hall.
  { apply Forall_forall. intros combo [Hsub Hc]%elem_of_chooseFrom.
    split; [done|]. apply Forall_forall. intros x Hx.
    rewrite Forall_forall in Hvalid. apply Hvalid. by eapply elem_of_sublist. }
  destruct (chooseFrom cards 5) as [|c0 rest] eqn:Hcombos; [done|].
  change (index (c0 :: rest) 0) with (Ok c0).
  pose proof Hall as [[Hc0len Hc0valid] _]%Forall_cons.
  set (start := mkHandResult HighCard "High Card" c0 (getHighCards c0 5)).
  assert (wellFormed start) as Hstart.
  { unfold wellFormed. simpl.
    apply (highCards_wellFormed c0 5); [lia | by apply valid_values]. }
  destruct (bestOf_spec (c0 :: rest) start Hstart Hall)
    as (best' & Hbest & Hbwf & Hbs & Hball & Hbeq).
  intros Hrun.
  assert (best' = best) as ->.
  { assert (bestOf (c0 :: rest) start = Ok best) as Hrun' by exact Hrun.
    congruence. }
  assert (∀ combo, combo ∈ c0 :: rest ↔ combo `sublist_of` cards ∧ length combo = 5%nat)
    as Hmem.
  { intros combo. rewrite <- Hcombos. apply elem_of_chooseFrom. }
  assert (∀ combo r, combo ∈ c0 :: rest → evaluateHand combo = Ok r → wellFormed r)
    as Hwf.
  { intros combo r Hin Hr. rewrite Forall_forall in Hall.
    destruct (Hall combo Hin) as [? ?]. by eapply evaluateHand_wellFormed. }
  split_and!; [done|..].
  - intros combo Hsub Hc.
    destruct (Hball combo) as (r & Hr & Hge); [by apply Hmem|].
    exists r. split_and!; [done| |done]. eapply Hwf; [|done]. by apply Hmem.
  - destruct Hbeq as [->|(combo & Hin & Hc)].
    + destruct (Hball c0) as (r0 & Hr0 & Hge); [by left|].
      assert (wellFormed r0) as Hwf0 by (eapply Hwf; [|done]; by left).
      exists c0, r0. split_and!; [by apply Hmem; left..|done|done|].
      pose proof (evaluateHand_beats_start c0 r0 "High Card" Hc0len Hc0valid Hr0) as Hle.
      fold start in Hle. rewrite (CompareHands_flip start r0) in Hle by done. lia.
    + exists combo, best.
      split_and!; [by apply Hmem..|done|done|apply CompareHands_refl].
  - destruct Hbeq as [->|(combo & Hin & Hc)].
    + exists c0. split_and!; [by apply Hmem; left..|done].
    + exists combo. split_and!; [by apply Hmem..|].
      apply evaluateHand_cards in Hc as [-> _]. apply insertionSort_Permutation.
Qed.

(** X11. The best hand of valid cards is made of five cards of the input:
    its cards are those of a five-card subsequence, in some order; so they
    are valid, and taken from the input without using a card more often
    than the input holds it.  Its key has the length its rank prescribes. *)
Theorem EvaluateBestHand_cards (cards : list Card) (best : HandResult) :
  Forall validCard cards → EvaluateBestHand cards = Ok best →
  (∃ combo, combo `sublist_of` cards ∧ Cards best ≡ₚ combo) ∧
  length (Cards best) = 5%nat ∧
  Cards best ⊆+ cards ∧
  Forall validCard (Cards best) ∧
  length (HighCards best) = keyLength (Rank best) ∧
  Forall (fun v => 2 <= v <= 14) (HighCards best).
Proof.
  intros Hvalid Hbest.
  destruct (EvaluateBestHand_best cards best Hvalid Hbest)
    as ([Hlen Hkey] & _ & _ & combo & Hsub & Hc & Hp).
  assert (Cards best ⊆+ cards) as Hsubm.
  { rewrite Hp. by apply sublist_submseteq. }
  split_and!; try done.
  - by exists combo.
  - by rewrite Hp.
  - apply Forall_forall. intros c Hin. rewrite Forall_forall in Hvalid.
    apply Hvalid. by eapply elem_of_submseteq.
Qed.

Lemma EvaluateBestHand_cards_witness :
  Cards (mkHandResult Pair "Pair"
           [diamond 1; club 12; club 9; spade 4; heart 4] [14; 12; 9; 4]) ⊆+
  [spade 4; heart 4; club 9; club 12; diamond 1; spade 7; heart 2].
Proof.
  apply (EvaluateBestHand_cards
           [spade 4; heart 4; club 9; club 12; diamond 1; spade 7; heart 2]).
  - repeat constructor.
  - vm_compute. reflexivity.
Defined.

Lemma CompareHands_same_key (x r1 r2 : HandResult) :
  Rank r1 = Rank r2 → HighCards r1 = HighCards r2 →
  CompareHands x r1 = CompareHands x r2.
Proof. intros Hr Hk. unfold CompareHands. by rewrite Hr, Hk. Qed.

Lemma CompareHands_equal_key (x y : HandResult) :
  wellFormed x → wellFormed y → CompareHands x y = 0 →
  Rank x = Rank y ∧ HighCards x = HighCards y.
Proof.
  intros [Lx Kx] [Ly Ky] Hzero. rewrite CompareHands_plain in Hzero.
  destruct (decide (Rank x = Rank y)) as [Heq|Hne].
  - rewrite bool_decide_eq_true_2 in Hzero by done. split; [done|].
    apply compareHighCards_zero; congruence.
  - rewrite bool_decide_eq_false_2 in Hzero by done.
    assert (rankInt (Rank x) = rankInt (Rank y)) as ?%rankInt_inj by lia. done.
Qed.

Lemma EvaluateBestHand_more_cards (cards cards' : list Card) (best best' : HandResult) :
  Forall validCard cards' → cards ⊆+ cards' →
  EvaluateBestHand cards = Ok best → EvaluateBestHand cards' = Ok best' →
  wellFormed best ∧ wellFormed best' ∧ CompareHands best' best >= 0.
Proof.
  intros Hvalid' Hsub Hbest Hbest'.
  assert (Forall validCard cards) as Hvalid.
  { apply Forall_forall. intros c Hin. rewrite Forall_forall in Hvalid'.
    apply Hvalid'. by eapply elem_of_submseteq. }
  destruct (EvaluateBestHand_best cards best Hvalid Hbest)
    as (Hwf & _ & (combo & r & Hc & Hclen & Hr & Hrwf & Hzero) & _).
  destruct (EvaluateBestHand_best cards' best' Hvalid' Hbest')
    as (Hwf' & Hall' & _ & _).
  split_and!; [done..|].
  assert (combo ⊆+ cards') as Hcs.
  { etrans; [by apply sublist_submseteq|done]. }
  apply submseteq_sublist_r in Hcs as (combo' & Hperm & Hsub').
  destruct (Hall' combo') as (r' & Hr' & Hrwf' & Hge); [done|by rewrite <- Hperm|].
  pose proof (evaluateHand_Permutation combo combo' Hperm) as Hsame.
  rewrite Hr, Hr' in Hsame. destruct Hsame as (Hrank & _ & Hkey & _).
  rewrite <- (CompareHands_same_key best' r r') in Hge by done.
  apply (CompareHands_trans _ r); [done..|].
  rewrite (CompareHands_flip best r) by done. lia.
Qed.

(** X12. More cards never give a worse hand, and the order of the cards
    does not matter: when every card of one valid input is in another, as
    often, the best hand of the larger input compares greater than or
    equal to that of the smaller; two orderings of the same cards give best
    hands of the same rank and key. *)
Theorem EvaluateBestHand_monotone (cards cards' : list Card) (best best' : HandResult) :
  Forall validCard cards' →
  EvaluateBestHand cards = Ok best → EvaluateBestHand cards' = Ok best' →
  (cards ⊆+ cards' → CompareHands best' best >= 0) ∧
  (cards ≡ₚ cards' →
     CompareHands best' best = 0 ∧ Rank best' = Rank best ∧
     HighCards best' = HighCards best).
Proof.
  intros Hvalid' Hbest Hbest'. split.
  - intros Hsub. by eapply EvaluateBestHand_more_cards.
  - intros Hperm.
    destruct (EvaluateBestHand_more_cards cards cards' best best')
      as (Hwf & Hwf' & Hge); [done|by rewrite Hperm|done..|].
    destruct (EvaluateBestHand_more_cards cards' cards best' best)
      as (_ & _ & Hle); [by rewrite Hperm|by rewrite Hperm|done..|].
    rewrite (CompareHands_flip best' best) in Hle by done.
    assert (CompareHands best' best = 0) as Hzero by lia.
    split; [done|]. by apply CompareHands_equal_key.
Qed.

Lemma EvaluateBestHand_monotone_witness :
  CompareHands
    (mkHandResult Pair "Pair"
       [diamond 1; club 12; club 9; spade 4; heart 4] [14; 12; 9; 4])
    (mkHandResult HighCard "High Card A"
       [diamond 1; club 12; club 9; spade 7; spade 4] [14; 12; 9; 7; 4]) >= 0.
Proof.
  apply (proj1 (EvaluateBestHand_monotone
                  [spade 4; club 9; club 12; diamond 1; spade 7]
                  [spade 4; heart 4; club 9; club 12; diamond 1; spade 7; heart 2]
                  _ _
                  ltac:(repeat constructor)
                  ltac:(vm_compute; reflexivity)
                  ltac:(vm_compute; reflexivity))).
  apply (bool_decide_unpack _). vm_compute. exact I.
Defined.

(** * The winner *)

Lemma breakTieLoop_either (hand1 hand2 : holdem.PlayerHand) (hole1 hole2 : list Card) :
  holdem.breakTieLoop hand1 hand2 hole1 hole2 = None ∨
  holdem.breakTieLoop hand1 hand2 hole1 hole2 = Some hand1 ∨
  holdem.breakTieLoop hand1 hand2 hole1 hole2 = Some hand2.
Proof.
  revert hole2. induction hole1 as [|c1 hole1 IH]; intros [|c2 hole2]; simpl; auto.
  repeat case_match; auto.
Qed.

Lemma breakTie_either (hand1 hand2 : holdem.PlayerHand) :
  holdem.breakTie hand1 hand2 = hand1 ∨ holdem.breakTie hand1 hand2 = hand2.
Proof.
  unfold holdem.breakTie.
  destruct (breakTieLoop_either hand1 hand2 (holdem.HoleCards hand1)
              (holdem.HoleCards hand2)) as [ -> | [ -> | -> ] ]; auto.
Qed.

Lemma winnerLoop_spec (winner : holdem.PlayerHand) (others : list holdem.PlayerHand) :
  wellFormed (holdem.HandResult winner) →
  Forall (fun p => wellFormed (holdem.HandResult p)) others →
  holdem.winnerLoop winner others ∈ winner :: others ∧
  ∀ p, p ∈ winner :: others →
       CompareHands (holdem.HandResult (holdem.winnerLoop winner others))
         (holdem.HandResult p) >= 0.
Proof.
  intros Hw Hall. revert winner Hw.
  induction Hall as [|p others Hp Hall IH]; intros winner Hw; simpl.
  - split; [by left|]. intros p ->%list_elem_of_singleton.
    rewrite CompareHands_refl. lia.
  - set (next := if _ >? 0 then _ else _).
    assert ((next = winner ∨ next = p) ∧
            CompareHands (holdem.HandResult next) (holdem.HandResult winner) >= 0 ∧
            CompareHands (holdem.HandResult next) (holdem.HandResult p) >= 0)
      as (Hnext & Hnw & Hnp).
    { subst next.
      pose proof (CompareHands_flip (holdem.HandResult p) (holdem.HandResult winner)
                    Hp Hw) as Hflip.
      destruct (CompareHands (holdem.HandResult p) (holdem.HandResult winner) >? 0)
        eqn:Hgt.
      - split_and!; [by right|lia|rewrite CompareHands_refl; lia].
      - destruct (CompareHands (holdem.HandResult p) (holdem.HandResult winner) =? 0)
          eqn:Heq.
        + destruct (breakTie_either winner p) as [ -> | -> ].
          * split_and!; [by left|rewrite CompareHands_refl; lia|lia].
          * split_and!; [by right|lia|rewrite CompareHands_refl; lia].
        + split_and!; [by left|rewrite CompareHands_refl; lia|lia]. }
    assert (wellFormed (holdem.HandResult next)) as Hnwf.
    { by destruct Hnext as [-> | ->]. }
    destruct (IH next Hnwf) as [Hin Hmax]. split.
    + apply elem_of_cons in Hin as [->|Hin].
      * destruct Hnext as [-> | ->]; [by left|by right; left].
      * by right; right.
    + assert (∀ q, q ∈ next :: others → wellFormed (holdem.HandResult q)) as Hwfq.
      { intros q [->|Hq]%elem_of_cons; [done|].
        rewrite Forall_forall in Hall. by apply Hall. }
      assert (wellFormed (holdem.HandResult (holdem.winnerLoop next others))) as Hwwf
        by (by apply Hwfq).
      intros q [->|[->|Hq]%elem_of_cons]%elem_of_cons.
      * apply (CompareHands_trans _ (holdem.HandResult next)); [done..| |done].
        apply Hmax. by left.
      * apply (CompareHands_trans _ (holdem.HandResult next)); [done..| |done].
        apply Hmax. by left.
      * apply Hmax. by right.
Qed.

(** X13. [DetermineWinner] on players whose hands are well formed, as the
    best hands of valid cards are, returns one of the players, and his hand
    compares greater than or equal to every player's hand.  With no player
    it panics. *)
Theorem DetermineWinner_maximal (players : list holdem.PlayerHand) :
  (players = [] → holdem.DetermineWinner players = Panic) ∧
  (players ≠ [] →
   Forall (fun p => wellFormed (holdem.HandResult p)) players →
   ∃ winner,
     holdem.DetermineWinner players = Ok winner ∧ winner ∈ players ∧
     ∀ p, p ∈ players →
          CompareHands (holdem.HandResult winner) (holdem.HandResult p) >= 0).
Proof.
  split.
  - by intros ->.
  - destruct players as [|first others]; [done|]. intros _ [Hf Hall]%Forall_cons.
    exists (holdem.winnerLoop first others). split; [done|].
    by apply winnerLoop_spec.
Qed.

Lemma DetermineWinner_maximal_witness :
  let pair := mkHandResult Pair "Pair"
                [spade 12; heart 8; club 8; diamond 5; club 3] [12; 8; 8; 5] in
  let flush := mkHandResult Flush "Flush"
                 [spade 13; spade 9; spade 7; spade 4; spade 2] [13; 9; 7; 4; 2] in
  ∃ winner,
    holdem.DetermineWinner
      [holdem.mkPlayerHand 1 [heart 8; club 8] pair;
       holdem.mkPlayerHand 2 [spade 13; spade 9] flush] = Ok winner.
Proof.
  intros pair flush.
  destruct (proj2 (DetermineWinner_maximal
              [holdem.mkPlayerHand 1 [heart 8; club 8] pair;
               holdem.mkPlayerHand 2 [spade 13; spade 9] flush]))
    as (winner & Hw & _); [done| |exists winner; exact Hw].
  repeat constructor; simpl; lia.
Defined.

(** * A whole game *)

Lemma holdem_NewGame_ok (numPlayers : Z) (rnd : nat → nat) :
  0 <= numPlayers <= 2 ^ 20 →
  holdem.NewGame numPlayers rnd =
    Ok (holdem.mkHoldemGame
          (cardgame.mkGame (deck.Shuffle rnd deck.NewDeck)
             (replicate (Z.to_nat numPlayers) []) deck.NewDeck)
          [] (replicate (Z.to_nat numPlayers) holdem.zeroPlayerHand) numPlayers).
Proof.
  intros Hn. unfold holdem.NewGame, cardgame.NewGame, makeslice,
    cardgame.sizeofHand, holdem.sizeofPlayerHand, maxAlloc.
  replace ((numPlayers <? 0) || (2 ^ 48 <? 24 * numPlayers)) with false by lia.
  by replace ((numPlayers <? 0) || (2 ^ 48 <? 104 * numPlayers)) with false by lia.
Qed.

Lemma holdem_NewGame_panic (numPlayers : Z) (rnd : nat → nat) :
  numPlayers < 0 ∨ maxAlloc < cardgame.sizeofHand * numPlayers →
  holdem.NewGame numPlayers rnd = Panic.
Proof.
  intros Hn. unfold holdem.NewGame, cardgame.NewGame, makeslice.
  unfold cardgame.sizeofHand, maxAlloc in *.
  by replace ((numPlayers <? 0) || (2 ^ 48 <? 24 * numPlayers)) with true by lia.
Qed.

Lemma dealRound_cards (handIndices : list Z) (g : holdem.HoldemGame) :
  concat (cardgame.Hands (holdem.Game (holdem.dealRound handIndices g).2)) ++
    cardgame.Deck (holdem.Game (holdem.dealRound handIndices g).2) ≡ₚ
  concat (cardgame.Hands (holdem.Game g)) ++ cardgame.Deck (holdem.Game g).
Proof.
  revert g. induction handIndices as [|handIndex rest IH]; intros g; simpl; [done|].
  pose proof (Deal_cards (holdem.Game g) handIndex) as (Hcards & _ & _).
  destruct (cardgame.Deal (holdem.Game g) handIndex) as [[msg|] game]; simpl in *.
  - done.
  - by rewrite IH.
Qed.

Lemma DealHoleCards_cards (g : holdem.HoldemGame) :
  concat (cardgame.Hands (holdem.Game (holdem.DealHoleCards g).2)) ++
    cardgame.Deck (holdem.Game (holdem.DealHoleCards g).2) ≡ₚ
  concat (cardgame.Hands (holdem.Game g)) ++ cardgame.Deck (holdem.Game g).
Proof.
  unfold holdem.DealHoleCards.
  pose proof (dealRound_cards (seqZ 0 (holdem.NumPlayers g)) g) as H1.
  destruct (holdem.dealRound (seqZ 0 (holdem.NumPlayers g)) g) as [[| |] g1];
    simpl in *; [|done..].
  by rewrite dealRound_cards.
Qed.

Lemma concat_replicate_nil (n : nat) : concat (replicate n ([] : list Card)) = [].
Proof. induction n as [|n IH]; simpl; done. Qed.

(** The table once the hole cards and the community cards are dealt, for
    a deck [d] of 52 cards without repeats. *)
Lemma table_dealt_from (d ref : list Card) (n : nat) :
  length d = 52%nat → NoDup d → (n <= 23)%nat →
  let g0 := holdem.mkHoldemGame (cardgame.mkGame d (replicate n []) ref)
              [] (replicate n holdem.zeroPlayerHand) (Z.of_nat n) in
  ∃ g1 g2,
    holdem.DealHoleCards g0 = (holdem.Done, g1) ∧
    holdem.DealCommunityCards g1 = (holdem.Done, g2) ∧
    cardgame.ReferenceDeck (holdem.Game g2) = ref ∧
    length (cardgame.Hands (holdem.Game g2)) = n ∧
    Forall (fun hand => length hand = 2%nat) (cardgame.Hands (holdem.Game g2)) ∧
    length (holdem.CommunityCards g2) = 5%nat ∧
    NoDup (concat (cardgame.Hands (holdem.Game g2)) ++ holdem.CommunityCards g2) ∧
    concat (cardgame.Hands (holdem.Game g2)) ++ holdem.CommunityCards g2 ⊆+ d ∧
    holdem.PlayerHands g2 = replicate n holdem.zeroPlayerHand.
Proof.
  intros Hdlen Hnodup Hn g0.
  pose proof (DealHoleCards_cards g0) as Hcards.
  destruct (DealHoleCards_run g0)
    as (st & g1 & Hrun1 & Hdone1 & _ & Hdeck1 & Hhands1 & Hlen1 & Href1 & Hcc1 & Hph1 & _).
  { subst g0. cbn. by rewrite length_replicate. }
  rewrite Hrun1 in Hcards.
  subst g0. cbn in Hcards, Hdone1, Hdeck1, Hhands1, Hlen1, Href1, Hcc1, Hph1.
  rewrite length_replicate in Hdone1, Hdeck1, Hhands1, Hlen1.
  rewrite concat_replicate_nil in Hcards. cbn in Hcards.
  rewrite Hdone1 in Hrun1 by lia.
  destruct (dealCommunity_spec 5 g1) as (g2 & Hrun2 & Hcc2 & Hdeck2 & Hh2 & Href2 & Hph2 & _).
  rewrite decide_True in Hrun2 by (rewrite Hdeck1, length_drop; lia).
  rewrite Hcc1 in Hcc2. cbn in Hcc2.
  exists g1, g2. rewrite Hh2, Hcc2, Href2, Href1, Hph2, Hph1.
  assert (concat (cardgame.Hands (holdem.Game g1)) ++
            take 5 (cardgame.Deck (holdem.Game g1))
          `sublist_of`
          concat (cardgame.Hands (holdem.Game g1)) ++ cardgame.Deck (holdem.Game g1))
    as Hsub.
  { apply sublist_app; [done|apply sublist_take]. }
  split_and!; try done.
  - apply Forall_lookup. intros i hand Hi.
    assert (i < n)%nat as Hin by (rewrite <- Hlen1; by eapply lookup_lt_Some).
    rewrite (Hhands1 i []) in Hi by (by apply lookup_replicate_2).
    injection Hi as <-.
    destruct (lookup_lt_is_Some_2 d i) as [c1 ->]; [lia|].
    destruct (lookup_lt_is_Some_2 d (n + i)) as [c2 ->]; [lia|]. done.
  - rewrite length_take, Hdeck1, length_drop. lia.
  - eapply sublist_NoDup; [|exact Hsub]. by rewrite Hcards.
  - rewrite <- Hcards. by apply sublist_submseteq.
Qed.

Lemma VerifyHands_sub (g : cardgame.Game) :
  concat (cardgame.Hands g) ⊆+ cardgame.ReferenceDeck g →
  cardgame.VerifyHands g = (true, []).
Proof.
  intros Hsub. unfold cardgame.VerifyHands.
  by rewrite (proj2 (verifyLoop_valid _ 0 _) Hsub).
Qed.

Lemma PrintGameState_ok (players : list holdem.PlayerHand) :
  Forall (fun p => (2 <= length (holdem.HoleCards p))%nat) players →
  holdem.PrintGameState players = Ok ().
Proof.
  induction 1 as [|p players Hp _ IH]; simpl; [done|].
  destruct (holdem.HoleCards p) as [|c1 [|c2 hole]]; simpl in Hp; try lia.
  done.
Qed.

(** X14. For up to 23 players and whatever the shuffle, dealing the hole
    cards and then the community cards succeeds: every hand holds two
    cards, five community cards lie on the table, all of them are valid
    cards, no card occurs twice among them, and [VerifyHands] accepts the
    hands. *)
Theorem table_after_dealing (numPlayers : Z) (rnd : nat → nat) :
  0 <= numPlayers <= 23 →
  ∃ g0 g1 g2,
    holdem.NewGame numPlayers rnd = Ok g0 ∧
    holdem.DealHoleCards g0 = (holdem.Done, g1) ∧
    holdem.DealCommunityCards g1 = (holdem.Done, g2) ∧
    length (cardgame.Hands (holdem.Game g2)) = Z.to_nat numPlayers ∧
    Forall (fun hand => length hand = 2%nat) (cardgame.Hands (holdem.Game g2)) ∧
    length (holdem.CommunityCards g2) = 5%nat ∧
    NoDup (concat (cardgame.Hands (holdem.Game g2)) ++ holdem.CommunityCards g2) ∧
    Forall validCard
      (concat (cardgame.Hands (holdem.Game g2)) ++ holdem.CommunityCards g2) ∧
    cardgame.VerifyHands (holdem.Game g2) = (true, []).
Proof.
  intros Hn. rewrite (holdem_NewGame_ok numPlayers rnd) by lia.
  assert (deck.Shuffle rnd deck.NewDeck ≡ₚ deck.NewDeck) as Hd
    by apply shuffleLoop_Permutation.
  pose proof NewDeck_cards_NoDup as Hnodup. pose proof NewDeck_cards_valid as Hvalid.
  assert (length deck.NewDeck = 52%nat) as Hlen by reflexivity.
  revert Hd Hnodup Hvalid Hlen.
  generalize (deck.Shuffle rnd deck.NewDeck) as d. generalize deck.NewDeck as ref.
  intros ref d Hd Hnodup Hvalid Hlen.
  destruct (table_dealt_from d ref (Z.to_nat numPlayers))
    as (g1 & g2 & Hrun1 & Hrun2 & Href & Hhlen & Hh & Hcc & Hnd & Hsub & Hph);
    [by rewrite Hd|by rewrite Hd|lia|].
  rewrite Z2Nat.id in Hrun1 by lia.
  eexists _, g1, g2. split_and!; try done.
  - apply Forall_forall. intros c Hc. apply Hvalid. rewrite <- Hd.
    by eapply elem_of_submseteq.
  - apply VerifyHands_sub. rewrite Href, <- Hd. etrans; [|exact Hsub].
    by apply submseteq_inserts_r.
Qed.

Lemma table_after_dealing_witness :
  ∃ g0 g1 g2,
    holdem.NewGame 2 (fun i => (5 * i + 2)%nat) = Ok g0 ∧
    holdem.DealHoleCards g0 = (holdem.Done, g1) ∧
    holdem.DealCommunityCards g1 = (holdem.Done, g2) ∧
    length (holdem.CommunityCards g2) = 5%nat.
Proof.
  destruct (table_after_dealing 2 (fun i => (5 * i + 2)%nat))
    as (g0 & g1 & g2 & H0 & H1 & H2 & _ & _ & Hcc & _); [lia|].
  exists g0, g1, g2. split_and!; [exact H0|exact H1|exact H2|exact Hcc].
Defined.

(** The player entries after a successful [EvaluateHands] on a dealt
    table. *)
Lemma evaluated_players (d : list Card) (g2 : holdem.HoldemGame) (n : nat) :
  Forall validCard d →
  length (cardgame.Hands (holdem.Game g2)) = n →
  Forall (fun hand => length hand = 2%nat) (cardgame.Hands (holdem.Game g2)) →
  length (holdem.CommunityCards g2) = 5%nat →
  concat (cardgame.Hands (holdem.Game g2)) ++ holdem.CommunityCards g2 ⊆+ d →
  length (holdem.PlayerHands g2) = n →
  ∃ g3,
    holdem.EvaluateHands g2 = (holdem.Done, g3) ∧
    holdem.Game g3 = holdem.Game g2 ∧
    length (holdem.PlayerHands g3) = n ∧
    Forall (fun p => 1 <= holdem.Player p <= Z.of_nat n ∧
                     length (holdem.HoleCards p) = 2%nat ∧
                     wellFormed (holdem.HandResult p))
      (holdem.PlayerHands g3).
Proof.
  intros Hvalid Hlen Hh Hcc Hsub Hph. unfold holdem.EvaluateHands.
  destruct (evaluateLoop_done (cardgame.Hands (holdem.Game g2)) 0 g2)
    as (g3 & Hrun & Hgame & _ & _ & Hphlen & _ & Hset).
  { lia. }
  { eapply Forall_impl; [exact Hh|]. intros hand Hhand. rewrite length_app. lia. }
  exists g3. split_and!; [done|done|lia|].
  apply Forall_lookup. intros i p Hp.
  assert (i < n)%nat as Hi by (rewrite <- Hph, <- Hphlen; by eapply lookup_lt_Some).
  destruct (lookup_lt_is_Some_2 (cardgame.Hands (holdem.Game g2)) i) as [hand Hhand];
    [lia|].
  destruct (Hset i hand Hhand) as (r & Hr & Hlook). simpl in Hlook.
  rewrite Hlook in Hp. injection Hp as <-. simpl. split_and!; [lia|lia| |].
  - rewrite Forall_forall in Hh. apply Hh. by eapply list_elem_of_lookup_2.
  - eapply (EvaluateBestHand_best _ r); [|exact Hr].
    apply Forall_forall. intros c Hc. rewrite Forall_forall in Hvalid. apply Hvalid.
    eapply elem_of_submseteq; [|exact Hsub].
    apply elem_of_app in Hc as [Hc|Hc]; apply elem_of_app; [left|by right].
    apply list_elem_of_In, in_concat. exists hand.
    split; apply list_elem_of_In; [by eapply list_elem_of_lookup_2|done].
Qed.

(** X15. What [PlayHoldem] does, whatever the shuffle.  With 1 to 23
    players every step succeeds: it names as winner one of the players,
    holding two hole cards, and [VerifyHands] accepts the hands.  With 24
    to 26 players the deck runs out while the community cards are dealt,
    with 27 to 2^20 players while the hole cards are dealt, and the game
    stops with that error.  With no player, a negative number, or a number
    whose slice of hands would take more than [maxAlloc] bytes, it
    panics. *)
Theorem PlayHoldem_outcome (numPlayers : Z) (rnd : nat → nat) :
  (numPlayers <= 0 ∨ maxAlloc < cardgame.sizeofHand * numPlayers →
     holdem.PlayHoldem numPlayers rnd = Panic) ∧
  (1 <= numPlayers <= 23 →
     ∃ winner,
       holdem.PlayHoldem numPlayers rnd = Ok (holdem.Finished winner true []) ∧
       1 <= holdem.Player winner <= numPlayers ∧
       length (holdem.HoleCards winner) = 2%nat) ∧
  (24 <= numPlayers <= 26 →
     holdem.PlayHoldem numPlayers rnd =
       Ok (holdem.Stopped "error dealing community card: no cards left in the deck")) ∧
  (27 <= numPlayers <= 2 ^ 20 →
     holdem.PlayHoldem numPlayers rnd =
       Ok (holdem.Stopped ("error dealing to hand " +:+ pretty (52 `mod` numPlayers)
                           +:+ ": no cards left in the deck"))).
Proof.
  destruct (decide (0 <= numPlayers <= 2 ^ 20)) as [Hnonneg|Hout].
  2:{ split_and!; [|intros; lia..]. intros Hn.
      unfold holdem.PlayHoldem. rewrite holdem_NewGame_panic; [done|].
      unfold cardgame.sizeofHand, maxAlloc in *. lia. }
  unfold holdem.PlayHoldem. rewrite (holdem_NewGame_ok numPlayers rnd) by lia.
  assert (deck.Shuffle rnd deck.NewDeck ≡ₚ deck.NewDeck) as Hd
    by apply shuffleLoop_Permutation.
  pose proof NewDeck_cards_NoDup as Hnodup. pose proof NewDeck_cards_valid as Hvalid.
  assert (length deck.NewDeck = 52%nat) as Hlen by reflexivity.
  revert Hd Hnodup Hvalid Hlen.
  generalize (deck.Shuffle rnd deck.NewDeck) as d. generalize deck.NewDeck as ref.
  intros ref d Hd Hnodup Hvalid Hlen.
  assert (length d = 52%nat) as Hdlen by (by rewrite Hd).
  assert (NoDup d) as Hdnodup by (by rewrite Hd).
  assert (Forall validCard d) as Hdvalid.
  { apply Forall_forall. intros c Hc. apply Hvalid. by rewrite <- Hd. }
  clear Hnodup Hvalid Hlen.
  destruct (Z_of_nat_complete numPlayers) as [n ->]; [lia|].
  rewrite Nat2Z.id.
  change (mbind ?f (Ok ?g)) with (f g). cbv beta.
  set (g0 := holdem.mkHoldemGame _ _ _ _).
  split_and!.
  - intros Hzero. assert (n = 0%nat) as ->
      by (unfold cardgame.sizeofHand, maxAlloc in Hzero; lia).
    destruct (table_dealt_from d ref 0)
      as (g1 & g2 & Hrun1 & Hrun2 & Href & Hhlen & Hh & Hcc & Hnd & Hsub & Hph);
      [done|done|lia|].
    fold g0 in Hrun1. rewrite Hrun1. cbv beta iota. rewrite Hrun2. cbv beta iota.
    unfold holdem.EvaluateHands.
    destruct (cardgame.Hands (holdem.Game g2)) as [|hand hands]; [|done].
    cbn [holdem.evaluateLoop]. cbv beta iota. rewrite Hph. done.
  - intros Hn.
    destruct (table_dealt_from d ref n)
      as (g1 & g2 & Hrun1 & Hrun2 & Href & Hhlen & Hh & Hcc & Hnd & Hsub & Hph);
      [done|done|lia|].
    fold g0 in Hrun1. rewrite Hrun1. cbv beta iota. rewrite Hrun2. cbv beta iota.
    destruct (evaluated_players d g2 n) as (g3 & Hrun3 & Hgame3 & Hplen & Hplayers);
      [done..|by rewrite Hph, length_replicate|].
    rewrite Hrun3. cbv beta iota.
    rewrite PrintGameState_ok
      by (eapply Forall_impl; [exact Hplayers|]; intros p (_ & -> & _); lia).
    rewrite Hgame3, VerifyHands_sub
      by (rewrite Href, <- Hd; etrans; [|exact Hsub]; by apply submseteq_inserts_r).
    destruct (holdem.PlayerHands g3) as [|first others] eqn:Hps; [simpl in Hplen; lia|].
    exists (holdem.winnerLoop first others). split; [done|].
    pose proof Hplayers as [Hf Hothers]%Forall_cons.
    destruct (winnerLoop_spec first others) as [Hin _].
    { apply Hf. }
    { eapply Forall_impl; [exact Hothers|]. by intros p (_ & _ & ?). }
    rewrite Forall_forall in Hplayers.
    destruct (Hplayers _ Hin) as (? & ? & _). done.
  - intros Hn.
    destruct (DealHoleCards_run g0)
      as (st & g1 & Hrun1 & Hdone1 & _ & Hdeck1 & _).
    { subst g0. cbn. by rewrite length_replicate. }
    subst g0. cbn in Hdone1, Hdeck1. rewrite length_replicate in Hdone1, Hdeck1.
    rewrite Hdone1 in Hrun1 by lia. rewrite Hrun1. cbv beta iota.
    unfold holdem.DealCommunityCards.
    destruct (dealCommunity_spec 5 g1) as (g2 & Hrun2 & _).
    rewrite decide_False in Hrun2 by (rewrite Hdeck1, length_drop; lia).
    by rewrite Hrun2.
  - intros Hn.
    destruct (DealHoleCards_run g0)
      as (st & g1 & Hrun1 & _ & Hfail1 & _).
    { subst g0. cbn. by rewrite length_replicate. }
    subst g0. cbn in Hfail1. rewrite length_replicate in Hfail1.
    rewrite Hfail1 in Hrun1 by lia. rewrite Hrun1. cbv beta iota.
    rewrite Hdlen, Nat2Z.inj_mod. done.
Qed.

Lemma PlayHoldem_outcome_witness :
  (∃ winner,
     holdem.PlayHoldem 3 (fun i => (5 * i + 2)%nat) =
       Ok (holdem.Finished winner true [])) ∧
  holdem.PlayHoldem 30 (fun i => (5 * i + 2)%nat) =
    Ok (holdem.Stopped "error dealing to hand 22: no cards left in the deck") ∧
  holdem.PlayHoldem (2 ^ 50) (fun i => (5 * i + 2)%nat) = Panic.
Proof.
  split_and!.
  - destruct (proj1 (proj2 (PlayHoldem_outcome 3 (fun i => (5 * i + 2)%nat))))
      as (winner & Hrun & _); [lia|].
    exists winner. exact Hrun.
  - apply (proj2 (proj2 (proj2 (PlayHoldem_outcome 30 (fun i => (5 * i + 2)%nat))))).
    lia.
  - apply (proj1 (PlayHoldem_outcome (2 ^ 50) (fun i => (5 * i + 2)%nat))).
    right. reflexivity.
Defined.
